(** * pkg/infra/log/log.go: the logging registry, embedded and verified

    A shallow embedding of the package-level state of [log.go] (the
    handler lists, the global filter table and [Root]) and of the
    functions that work on it: level-name resolution, filter parsing,
    [New], [Close], [Reload] and [ReadLoggingConfig].

    Conventions.
    - Go maps are [gmap]s.  The two [range] loops over maps are written
      with [map_fold]; the theorems about them show that the result does
      not depend on the iteration order.
    - The package-level variables form the record [State]; a function
      that touches them takes the state and returns the new one.
    - What is written to the bootstrap logger [llog] is collected, in
      order, in the [llog] field.
    - Everything that lives outside [log.go] (the handlers' own [Close],
      [Reload] and [Init], the file system, [util.SplitString], the
      terminal test) is a field of the record [Env].
    - Strings are byte strings in UTF-8, as in Go.
    - The configuration file is taken as a value: what the [ini]
      accessors write back into it (a key made when it is first asked
      for, the default [MustString] stores) is not followed.  A key is
      read from its section or, when the section has none, from the
      nearest section it is a child of, as [ini] does. *)

From Stdlib Require Import ZArith Ascii String List Lia.
From stdpp Require Import base option gmap list strings fin_maps.

Open Scope string_scope.
Open Scope list_scope.

(* ================================================================== *)
(** ** Go's [strings] package *)

Module Strings.

Definition code (c : ascii) : nat := nat_of_ascii c.

(** White space of one byte: '\t', '\n', '\v', '\f', '\r' and ' '. *)
Definition space1 (c : ascii) : bool :=
  ((9 <=? code c)%nat && (code c <=? 13)%nat) || (code c =? 32)%nat.

(** White space of two bytes in UTF-8: U+0085 and U+00A0. *)
Definition space2 (c d : ascii) : bool :=
  (code c =? 194)%nat && ((code d =? 133)%nat || (code d =? 160)%nat).

(** White space of three bytes in UTF-8: U+1680, U+2000 to U+200A,
    U+2028, U+2029, U+202F, U+205F and U+3000. *)
Definition space3 (c d e : ascii) : bool :=
  ((code c =? 225)%nat && (code d =? 154)%nat && (code e =? 128)%nat)
  || ((code c =? 226)%nat && (code d =? 128)%nat
      && (((128 <=? code e)%nat && (code e <=? 138)%nat)
          || (code e =? 168)%nat || (code e =? 169)%nat || (code e =? 175)%nat))
  || ((code c =? 226)%nat && (code d =? 129)%nat && (code e =? 159)%nat)
  || ((code c =? 227)%nat && (code d =? 128)%nat && (code e =? 128)%nat).

(** The string begins with the encoding of a white-space rune. *)
Definition has_space_prefix (s : string) : bool :=
  match s with
  | EmptyString => false
  | String c r1 =>
      space1 c ||
      match r1 with
      | EmptyString => false
      | String d r2 =>
          space2 c d ||
          match r2 with
          | EmptyString => false
          | String e _ => space3 c d e
          end
      end
  end.

(** The string is the encoding of one white-space rune. *)
Definition is_space_rune (s : string) : bool :=
  match s with
  | String c EmptyString => space1 c
  | String c (String d EmptyString) => space2 c d
  | String c (String d (String e EmptyString)) => space3 c d e
  | _ => false
  end.

(** [strings.TrimLeftFunc(s, unicode.IsSpace)] *)
Fixpoint trim_left (s : string) : string :=
  match s with
  | EmptyString => EmptyString
  | String c r1 =>
      if space1 c then trim_left r1 else
      match r1 with
      | EmptyString => s
      | String d r2 =>
          if space2 c d then trim_left r2 else
          match r2 with
          | EmptyString => s
          | String e r3 => if space3 c d e then trim_left r3 else s
          end
      end
  end.

(** [strings.TrimRightFunc(s, unicode.IsSpace)]: what is left of the
    tail, and nothing when that with the first byte is one white-space
    rune. *)
Fixpoint trim_right (s : string) : string :=
  match s with
  | EmptyString => EmptyString
  | String c r =>
      if is_space_rune (String c (trim_right r)) then EmptyString
      else String c (trim_right r)
  end.

(** [strings.TrimSpace]: the white space of Unicode is cut off at both
    ends. *)
Definition TrimSpace (s : string) : string := trim_right (trim_left s).

Definition lower (c : ascii) : ascii :=
  if ((65 <=? code c)%nat && (code c <=? 90)%nat)
  then ascii_of_nat (code c + 32) else c.

Fixpoint is_ascii (s : string) : bool :=
  match s with
  | EmptyString => true
  | String c r => (code c <? 128)%nat && is_ascii r
  end.

Fixpoint map_lower (s : string) : string :=
  match s with
  | EmptyString => EmptyString
  | String c r => String (lower c) (map_lower r)
  end.

(** [strings.ToLower]: a string of ASCII bytes has its letters A to Z
    lowered; any other string is mapped rune by rune with
    [unicode.ToLower], which is taken as given. *)
Definition ToLower (unicode_ToLower : string → string) (s : string) : string :=
  if is_ascii s then map_lower s else unicode_ToLower s.

(** [strings.Split(s, sep)] for a one-byte separator: every piece
    between two separators, so the result is never empty. *)
Fixpoint Split (s : string) (sep : ascii) : list string :=
  match s with
  | EmptyString => [EmptyString]
  | String c r =>
      if Ascii.eqb c sep then EmptyString :: Split r sep
      else match Split r sep with
           | p :: ps => String c p :: ps
           | [] => [String c EmptyString]
           end
  end.

Fixpoint contains (s : string) (c : ascii) : bool :=
  match s with
  | EmptyString => false
  | String d r => Ascii.eqb d c || contains r c
  end.

(** The names of the sections a section name is a child of, the
    nearest first: the text before each '.', as
    [strings.LastIndex(name, ".")] cuts it again and again. *)
Fixpoint before_dots (pre s : string) : list string :=
  match s with
  | EmptyString => []
  | String c r =>
      (if Ascii.eqb c "." then [pre] else [])
      ++ before_dots (pre +:+ String c EmptyString) r
  end.

Definition parents (name : string) : list string :=
  reverse (before_dots EmptyString name).

End Strings.

(* ================================================================== *)
(** ** go-kit [log/level] *)

Module level.

(** The level values this package emits. *)
Inductive Value := DebugValue | InfoValue | WarnValue | ErrorValue.

(** The filter options this package builds. *)
Inductive Option := AllowDebug | AllowInfo | AllowWarn | AllowError.

(** The mask behind each option. *)
Definition allows (o : Option) (v : Value) : bool :=
  match o, v with
  | AllowDebug, _ => true
  | AllowInfo, DebugValue => false
  | AllowInfo, _ => true
  | AllowWarn, (WarnValue | ErrorValue) => true
  | AllowWarn, _ => false
  | AllowError, ErrorValue => true
  | AllowError, _ => false
  end.

End level.

(* ================================================================== *)
(** ** Errors and key/value records *)

(** An error made by a collaborator is opaque; the one [ini] gives for
    a section the file does not have names the section;
    [errutil.Wrapf(err, format, args...)] keeps its cause. *)
Inductive error :=
| ExtErr (msg : string)
| NoSection (name : string)
| Wrapf (cause : error) (format : string) (args : list string).

#[local] Set Warnings "-register-all".

(** One argument of a [Log] call. *)
Inductive kval :=
| KStr (s : string)
| KLevel (v : level.Value)
| KErr (e : error)
| KSlice (l : list kval)
| KMissing.

(** Two interface values are compared by their dynamic type and
    value; here only a comparison with a string is ever made. *)
Definition kval_is_str (k : kval) (s : string) : bool :=
  match k with
  | KStr t => bool_decide (t = s)
  | _ => false
  end.

(** [level.Key()] *)
Definition level_Key : kval := KStr "level".

(** A go-kit context logger hands on an even number of values: an odd
    list gets [ErrMissingValue] at its end. *)
Definition pad (keyvals : list kval) : list kval :=
  if Nat.even (length keyvals) then keyvals else keyvals ++ [KMissing].

(** One record written to the bootstrap logger:
    [level.Error(llog).Log(keyvals...)], the level pair in front. *)
Definition level_Error_Log (keyvals : list kval) : list kval :=
  pad (level_Key :: KLevel level.ErrorValue :: keyvals).

(* ================================================================== *)
(** ** Level policy *)

Definition logLevels : gmap string level.Option :=
  list_to_map
    [ ("trace", level.AllowDebug);
      ("debug", level.AllowDebug);
      ("info", level.AllowInfo);
      ("warn", level.AllowWarn);
      ("error", level.AllowError);
      ("critical", level.AllowError) ].

(** The result comes with the records written to [llog]. *)
Definition getLogLevelFromString (levelName : string)
  : level.Option * list (list kval) :=
  match logLevels !! levelName with
  | Some loglevel => (loglevel, [])
  | None =>
      (level.AllowError,
       [level_Error_Log [KStr "Unknown log level"; KStr "level"; KStr levelName]])
  end.

(** One turn of the loop of [getFilters]. *)
Definition getFilters_step
    (acc : gmap string level.Option * list (list kval)) (filterStr : string)
  : gmap string level.Option * list (list kval) :=
  let parts := Strings.Split filterStr ":" in
  if (1 <? length parts)%nat then
    let '(lvl, out) := getLogLevelFromString (nth 1 parts "") in
    (<[nth 0 parts "" := lvl]> acc.1, acc.2 ++ out)
  else acc.

Definition getFilters (filterStrArray : list string)
  : gmap string level.Option * list (list kval) :=
  fold_left getFilters_step filterStrArray (∅, []).


(* ================================================================== *)
(** ** The configuration file (gopkg.in/ini.v1) *)

Module ini.

(** A file is its sections, a section its keys. *)
Abbreviation File := (gmap string (gmap string string)).

(** A [*ini.Section]: the file it belongs to and its name. *)
Record Sec := { sec_file : File; sec_name : string }.

(** [cfg.GetSection(name)] *)
Definition GetSection (cfg : File) (name : string) : Sec + error :=
  match cfg !! name with
  | Some _ => inl {| sec_file := cfg; sec_name := name |}
  | None => inr (NoSection name)
  end.

(** [cfg.Section(name)]: the section, made empty when the file has
    none. *)
Definition SectionOf (cfg : File) (name : string) : Sec :=
  {| sec_file := cfg; sec_name := name |}.

(** The key [k] as section [name] of the file holds it itself. *)
Definition own_key (cfg : File) (k : string) (name : string) : option string :=
  cfg !! name ≫= (λ keys, keys !! k).

(** [sec.GetKey(k)]: the key of the section itself or, when it has
    none, of the nearest section it is a child of that has one. *)
Definition GetKey (sec : Sec) (k : string) : option string :=
  head (omap (own_key (sec_file sec) k)
             (sec_name sec :: Strings.parents (sec_name sec))).

(** [sec.Key(k).String()]: a key found nowhere is made, empty. *)
Definition KeyString (sec : Sec) (k : string) : string :=
  default "" (GetKey sec k).

(** [sec.Key(k).MustString(d)] *)
Definition MustString (sec : Sec) (k : string) (d : string) : string :=
  match KeyString sec k with
  | "" => d
  | v => v
  end.

End ini.

(* ================================================================== *)
(** ** Handlers, loggers and the package state *)

(** [Formatedlogger]: the three logger constructors [getLogFormat] can
    return. *)
Inductive Formatedlogger := TermLogfmt | Logfmt | JSONLogger.

(** The fields [ReadLoggingConfig] sets on a [FileLogWriter]. *)
Record FileLogWriter := {
  Filename : string;
  Format : Formatedlogger;
  Rotate : bool;
  Maxlines : Z;
  Maxsize : Z;
  Daily : bool;
  Maxdays : Z
}.

Inductive Backend :=
| Console (format : Formatedlogger)                        (* format(os.Stdout) *)
| File (w : FileLogWriter)                                 (* NewFileWriter() *)
| Syslog (sec : ini.Sec) (format : Formatedlogger).         (* NewSyslog(sec, format) *)

(** A handler object; [sid] tells two objects of equal contents apart
    (it numbers the allocations). *)
Record Sink := { sid : nat; backend : Backend }.

(** [DisposableHandler] and [ReloadableHandler] are interfaces over such
    objects; what their methods return is in [Env]. *)
Abbreviation DisposableHandler := Sink (only parsing).
Abbreviation ReloadableHandler := Sink (only parsing).

(** go-kit loggers, as they are built here: a handler, [log.With] around
    a logger, [level.NewFilter] around a logger. *)
Inductive Logger :=
| Handler (s : Sink)
| With (next : Logger) (keyvals : list kval)
| NewFilter (next : Logger) (allowed : level.Option).

Module LogWithFilters.
Record t := {
  val : Logger;
  filters : gmap string level.Option;
  maxLevel : level.Option
}.
End LogWithFilters.
Abbreviation LogWithFilters := LogWithFilters.t.

Record MultiLoggers := { loggers : list LogWithFilters }.

(** A call of a handler's own method. *)
Inductive Call :=
| CallClose (h : Sink)
| CallReload (h : Sink)
| CallInit (h : Sink).

(** The package-level variables, the output of [llog], the handler
    calls made so far and the allocation counter. *)
Record State := {
  llog : list (list kval);
  loggersToClose : list DisposableHandler;
  loggersToReload : list ReloadableHandler;
  filters : gmap string level.Option;
  Root : MultiLoggers;
  calls : list Call;
  allocated : nat
}.

(** [func init()] *)
Definition init : State :=
  {| llog := []; loggersToClose := []; loggersToReload := [];
     filters := ∅; Root := {| loggers := [] |}; calls := []; allocated := 0 |}.

Definition write_llog (out : list (list kval)) (st : State) : State :=
  {| llog := llog st ++ out; loggersToClose := loggersToClose st;
     loggersToReload := loggersToReload st; filters := filters st;
     Root := Root st; calls := calls st; allocated := allocated st |}.

(** What the rest of the program and the system answer.  A handler
    answers a call the same way each time it is asked within one call
    of a function of the package; what it answers in a later call is the
    matter of the environment given to that call. *)
Record Env := {
  SplitString : string → list string;        (* util.SplitString *)
  unicode_ToLower : string → string;          (* strings.Map(unicode.ToLower, _) *)
  syslog_Init : ini.Sec → Formatedlogger → option error; (* SysLogHandler.Init *)
  IsTerminal : bool;                          (* isatty.IsTerminal(os.Stdout.Fd()) *)
  Join : string → string → string;            (* filepath.Join *)
  Dir : string → string;                      (* filepath.Dir *)
  MkdirAll : string → option error;           (* os.MkdirAll(_, os.ModePerm) *)
  ParseBool : string → option bool;           (* strconv.ParseBool *)
  ParseInt : string → option Z;               (* strconv.ParseInt(_, 0, 64) *)
  Init : Sink → option error;                 (* FileLogWriter.Init *)
  handler_Close : Sink → option error;        (* DisposableHandler.Close *)
  handler_Reload : Sink → option error        (* ReloadableHandler.Reload *)
}.

(** Modelled from the spec: [NewSyslog] of [syslog.go], which is not
    among the sources.  It makes the handler of the section and the
    format; the failure to initialize it is fatal to the load. *)
Definition NewSyslog (E : Env) (sec : ini.Sec) (format : Formatedlogger)
    (id : nat) : Sink + error :=
  match syslog_Init E sec format with
  | Some err => inr err
  | None => inl {| sid := id; backend := Syslog sec format |}
  end.

(* ------------------------------------------------------------------ *)
(** *** go-kit dispatch *)

(** The level filter looks at the value positions 1, 3, 5, ... for the
    first level value. *)
Fixpoint first_level (keyvals : list kval) : option level.Value :=
  match keyvals with
  | _ :: KLevel v :: _ => Some v
  | _ :: _ :: rest => first_level rest
  | _ => None
  end.

(** [l.Log(keyvals...)]: the records that reach a handler.  [log.With]
    without values is the logger itself; otherwise the context, kept
    even, goes in front and the whole is made even again. *)
Fixpoint Log (l : Logger) (keyvals : list kval) : list (Sink * list kval) :=
  match l with
  | Handler s => [(s, keyvals)]
  | With next ctx =>
      match ctx with
      | [] => Log next keyvals
      | _ => Log next (pad (pad ctx ++ keyvals))
      end
  | NewFilter next allowed =>
      match first_level keyvals with
      | Some v => if level.allows allowed v then Log next keyvals else []
      | None => Log next keyvals
      end
  end.

Definition dispatch (v : level.Value) (ml : MultiLoggers)
    (msg : string) (args : list kval) : list (Sink * list kval) :=
  flat_map
    (λ multilogger,
       Log (LogWithFilters.val multilogger)
           [level_Key; KLevel v; KStr "msg"; KStr msg; KSlice args])
    (loggers ml).

Definition Warn := dispatch level.WarnValue.
Definition Debug := dispatch level.DebugValue.
Definition Error := dispatch level.ErrorValue.
Definition Info := dispatch level.InfoValue.

(* ------------------------------------------------------------------ *)
(** *** New *)

(** One turn of the loop of [New]. *)
Definition New_step (logger : string) (ctx : list kval)
    (newloger : MultiLoggers) (logWithFilter : LogWithFilters) : MultiLoggers :=
  let val1 :=
    With (LogWithFilters.val logWithFilter)
         [KSlice (KStr "logger" :: KStr logger :: ctx)] in
  let val2 :=
    match LogWithFilters.filters logWithFilter !! logger with
    | Some v => NewFilter val1 v
    | None => NewFilter val1 (LogWithFilters.maxLevel logWithFilter)
    end in
  {| loggers :=
       loggers newloger ++
       [ {| LogWithFilters.val := val2;
            LogWithFilters.filters := LogWithFilters.filters logWithFilter;
            LogWithFilters.maxLevel := LogWithFilters.maxLevel logWithFilter |} ] |}.

Definition New (logger : string) (ctx : list kval) (st : State) : MultiLoggers :=
  fold_left (New_step logger ctx) (loggers (Root st)) {| loggers := [] |}.

(* ------------------------------------------------------------------ *)
(** *** Close and Reload *)

Section Lifecycle.
Variable E : Env.

(** One turn of the loop of [Close]: the error kept so far and the
    calls made so far. *)
Definition Close_step (acc : option error * list Call)
    (logger : DisposableHandler) : option error * list Call :=
  let e := handler_Close E logger in
  (match e, acc.1 with
   | Some e', None => Some e'
   | _, err => err
   end,
   acc.2 ++ [CallClose logger]).

Definition Close (st : State) : option error * State :=
  let '(err, cs) := fold_left Close_step (loggersToClose st) (None, calls st) in
  (err,
   {| llog := llog st; loggersToClose := [];
      loggersToReload := loggersToReload st; filters := filters st;
      Root := Root st; calls := cs; allocated := allocated st |}).

(** The loop of [Reload] over what is left of the list. *)
Fixpoint Reload_range (rest : list ReloadableHandler) (cs : list Call)
  : option error * list Call :=
  match rest with
  | [] => (None, cs)
  | logger :: rest' =>
      match handler_Reload E logger with
      | Some err => (Some err, cs ++ [CallReload logger])
      | None => Reload_range rest' (cs ++ [CallReload logger])
      end
  end.

Definition Reload (st : State) : option error * State :=
  let '(err, cs) := Reload_range (loggersToReload st) (calls st) in
  (err,
   {| llog := llog st; loggersToClose := loggersToClose st;
      loggersToReload := loggersToReload st; filters := filters st;
      Root := Root st; calls := cs; allocated := allocated st |}).

End Lifecycle.


(* ================================================================== *)
(** ** Reading the configuration *)

Definition getLogLevelFromConfig (E : Env) (key : string) (defaultName : string)
    (cfg : ini.File) : string * level.Option * list (list kval) :=
  let levelName := ini.MustString (ini.SectionOf cfg key) "level" defaultName in
  let levelName := Strings.ToLower (unicode_ToLower E) levelName in
  let '(lvl, out) := getLogLevelFromString levelName in
  (levelName, lvl, out).

(** go-kit [log/term]: the colours named here; the zero value of
    [FgBgColor] has [Default] twice and colours nothing. *)
Module term.

Inductive Color := Default | DarkRed | Yellow | Gray | DarkGray | Red.

Record FgBgColor := { Fg : Color; Bg : Color }.

End term.

(** [func terminalColorFn(keyvals ...interface{}) term.FgBgColor]: the
    loop walks the pairs at the positions (0,1), (2,3), ...; a value is
    one of the [case] strings only when it is a string. *)
Fixpoint terminalColorFn (keyvals : list kval) : term.FgBgColor :=
  match keyvals with
  | k :: v :: rest =>
      if kval_is_str k "level" then
        match v with
        | KStr s =>
            if decide (s = "trace") then
              {| term.Fg := term.DarkGray; term.Bg := term.Default |}
            else if decide (s = "debug") then
              {| term.Fg := term.DarkGray; term.Bg := term.Default |}
            else if decide (s = "info") then
              {| term.Fg := term.Gray; term.Bg := term.Default |}
            else if decide (s = "warn") then
              {| term.Fg := term.Yellow; term.Bg := term.Default |}
            else if decide (s = "error") then
              {| term.Fg := term.Red; term.Bg := term.Default |}
            else if decide (s = "crit") then
              {| term.Fg := term.Gray; term.Bg := term.DarkRed |}
            else {| term.Fg := term.Default; term.Bg := term.Default |}
        | _ => {| term.Fg := term.Default; term.Bg := term.Default |}
        end
      else terminalColorFn rest
  | _ => {| term.Fg := term.Default; term.Bg := term.Default |}
  end.

(** [func getLogFormat(format string) Formatedlogger] *)
Definition getLogFormat (isTerminal : bool) (format : string) : Formatedlogger :=
  if decide (format = "console") then
    if isTerminal then TermLogfmt else Logfmt
  else if decide (format = "text") then Logfmt
  else if decide (format = "json") then JSONLogger
  else Logfmt.

(** [for key, value := range src { if _, exist := dst[key]; !exist
    { dst[key] = value } }]: both merge loops of [ReadLoggingConfig]. *)
Definition copy_absent (key : string) (value : level.Option)
    (dst : gmap string level.Option) : gmap string level.Option :=
  match dst !! key with
  | Some _ => dst
  | None => <[key := value]> dst
  end.

Definition range_copy_absent (src dst : gmap string level.Option)
  : gmap string level.Option :=
  map_fold copy_absent dst src.

(** [1 << uint(n)] on a 64-bit [int]. *)
Definition shl1 (n : Z) : Z :=
  let u := (n mod 2 ^ 64)%Z in
  if (u <? 63)%Z then (2 ^ u)%Z
  else if (u =? 63)%Z then (- 2 ^ 63)%Z
  else 0%Z.

(** What [ReadLoggingConfig] does: it returns an error (or nil), or it
    panics, or the failure of [NewSyslog] ends the load. *)
Inductive result :=
| Return (err : option error)
| Panic (format : string) (args : list string)
| Fatal (err : error).

(** The body of the loop over the modes goes on to the next mode or
    leaves the function. *)
Inductive step :=
| Continue (st : State)
| Leave (r : result) (st : State).

Section Loader.
Variable E : Env.

Definition MustBool (sec : ini.Sec) (k : string) (d : bool) : bool :=
  default d (ParseBool E (ini.KeyString sec k)).

Definition MustInt (sec : ini.Sec) (k : string) (d : Z) : Z :=
  default d (ParseInt E (ini.KeyString sec k)).

(** The [switch mode] of the loop: the value left in [handler.val]
    ([None] for nil) and the state, unless the function is left. *)
Definition ReadLoggingConfig_switch (logsPath : string) (sec : ini.Sec)
    (format : Formatedlogger) (mode : string) (st : State)
  : (option Logger * State) + (result * State) :=
  if decide (mode = "console") then
    let h := {| sid := allocated st; backend := Console format |} in
    inl (Some (Handler h),
         {| llog := llog st; loggersToClose := loggersToClose st;
            loggersToReload := loggersToReload st; filters := filters st;
            Root := Root st; calls := calls st; allocated := S (allocated st) |})
  else if decide (mode = "file") then
    let fileName :=
      ini.MustString sec "file_name" (Join E logsPath "grafana.log") in
    let dpath := Dir E fileName in
    match MkdirAll E dpath with
    | Some err =>
        inr (Return (Some (Wrapf err "failed to create log directory %q" [dpath])),
             write_llog
               [level_Error_Log [KStr "Failed to create directory";
                                 KStr "dpath"; KStr dpath; KStr "err"; KErr err]]
               st)
    | None =>
        let fileHandler :=
          {| sid := allocated st;
             backend :=
               File {| Filename := fileName;
                       Format := format;
                       Rotate := MustBool sec "log_rotate" true;
                       Maxlines := MustInt sec "max_lines" 1000000;
                       Maxsize := shl1 (MustInt sec "max_size_shift" 28);
                       Daily := MustBool sec "daily_rotate" true;
                       Maxdays := MustInt sec "max_days" 7 |} |} in
        let st1 :=
          {| llog := llog st; loggersToClose := loggersToClose st;
             loggersToReload := loggersToReload st; filters := filters st;
             Root := Root st; calls := calls st ++ [CallInit fileHandler];
             allocated := S (allocated st) |} in
        match Init E fileHandler with
        | Some err =>
            inr (Return (Some (Wrapf err "failed to initialize file handler" [])),
                 write_llog
                   [level_Error_Log [KStr "Failed to initialize file handler";
                                     KStr "dpath"; KStr dpath; KStr "err"; KErr err]]
                   st1)
        | None =>
            inl (Some (Handler fileHandler),
                 {| llog := llog st1;
                    loggersToClose := loggersToClose st1 ++ [fileHandler];
                    loggersToReload := loggersToReload st1 ++ [fileHandler];
                    filters := filters st1; Root := Root st1;
                    calls := calls st1; allocated := allocated st1 |})
        end
    end
  else if decide (mode = "syslog") then
    match NewSyslog E sec format (allocated st) with
    | inr err => inr (Fatal err, st)
    | inl sysLogHandler =>
        inl (Some (Handler sysLogHandler),
             {| llog := llog st;
                loggersToClose := loggersToClose st ++ [sysLogHandler];
                loggersToReload := loggersToReload st; filters := filters st;
                Root := Root st; calls := calls st;
                allocated := S (allocated st) |})
    end
  else inl (None, st).

(** The body of [for _, mode := range modes]. *)
Definition ReadLoggingConfig_mode (logsPath : string) (cfg : ini.File)
    (defaultLevelName : string) (defaultFilters : gmap string level.Option)
    (mode : string) (st : State) : step :=
  let mode := Strings.TrimSpace mode in
  match ini.GetSection cfg ("log." +:+ mode) with
  | inr err =>
      Leave (Return (Some (Wrapf err "failed to get config section log.%s" [mode])))
            (write_llog [level_Error_Log [KStr "Unknown log mode"; KStr "mode"; KStr mode]] st)
  | inl sec =>
      let '(_, leveloption, out1) :=
        getLogLevelFromConfig E ("log." +:+ mode) defaultLevelName cfg in
      let '(modeFilters, out2) :=
        getFilters (SplitString E (ini.KeyString sec "filters")) in
      let st := write_llog (out1 ++ out2) st in
      let format := getLogFormat (IsTerminal E) (ini.MustString sec "format" "") in
      match ReadLoggingConfig_switch logsPath sec format mode st with
      | inr (r, st') => Leave r st'
      | inl (None, st') =>
          Leave (Panic "Handler is uninitialized for mode %q" [mode]) st'
      | inl (Some v, st') =>
          (* join default filters and mode filters together *)
          let modeFilters := range_copy_absent defaultFilters modeFilters in
          (* copy joined default + mode filters into filters *)
          let filters' := range_copy_absent modeFilters (filters st') in
          let handler :=
            {| LogWithFilters.val := v;
               LogWithFilters.filters := modeFilters;
               LogWithFilters.maxLevel := leveloption |} in
          Continue
            {| llog := llog st'; loggersToClose := loggersToClose st';
               loggersToReload := loggersToReload st'; filters := filters';
               Root := {| loggers := loggers (Root st') ++ [handler] |};
               calls := calls st'; allocated := allocated st' |}
      end
  end.

Fixpoint ReadLoggingConfig_range (logsPath : string) (cfg : ini.File)
    (defaultLevelName : string) (defaultFilters : gmap string level.Option)
    (modes : list string) (st : State) : result * State :=
  match modes with
  | [] => (Return None, st)
  | mode :: rest =>
      match ReadLoggingConfig_mode logsPath cfg defaultLevelName defaultFilters mode st with
      | Leave r st' => (r, st')
      | Continue st' =>
          ReadLoggingConfig_range logsPath cfg defaultLevelName defaultFilters rest st'
      end
  end.

Definition ReadLoggingConfig (modes : list string) (logsPath : string)
    (cfg : ini.File) (st : State) : result * State :=
  match Close E st with
  | (Some err, st1) => (Return (Some err), st1)
  | (None, st1) =>
      let '(defaultLevelName, _, out1) := getLogLevelFromConfig E "log" "info" cfg in
      let '(defaultFilters, out2) :=
        getFilters (SplitString E (ini.KeyString (ini.SectionOf cfg "log") "filters")) in
      ReadLoggingConfig_range logsPath cfg defaultLevelName defaultFilters modes
        (write_llog (out1 ++ out2) st1)
  end.

End Loader.

(* ================================================================== *)
(** ** Words of the specification *)

(** The handlers [Reload] gets to: the list up to and including the
    first one whose reload fails. *)
Fixpoint upto_first_failure (E : Env) (l : list Sink) : list Sink :=
  match l with
  | [] => []
  | h :: rest =>
      h :: match handler_Reload E h with
           | Some _ => []
           | None => upto_first_failure E rest
           end
  end.

(** The handler a logger ends in. *)
Fixpoint sink_of (l : Logger) : Sink :=
  match l with
  | Handler s => s
  | With next _ => sink_of next
  | NewFilter next _ => sink_of next
  end.

(** The minimum a logger was bound to: its outermost level filter. *)
Definition bound_min (l : Logger) : option level.Option :=
  match l with
  | NewFilter _ allowed => Some allowed
  | _ => None
  end.

(** A filter entry for [logger] put, after the fact, into every filter
    table a [MultiLoggers] value holds. *)
Definition add_filter (logger : string) (o : level.Option)
    (ml : MultiLoggers) : MultiLoggers :=
  {| loggers :=
       map (λ b, {| LogWithFilters.val := LogWithFilters.val b;
                    LogWithFilters.filters :=
                      <[logger := o]> (LogWithFilters.filters b);
                    LogWithFilters.maxLevel := LogWithFilters.maxLevel b |})
           (loggers ml) |}.

(** The same entry put into the tables of the registry. *)
Definition Root_add_filter (logger : string) (o : level.Option)
    (st : State) : State :=
  {| llog := llog st; loggersToClose := loggersToClose st;
     loggersToReload := loggersToReload st; filters := filters st;
     Root := add_filter logger o (Root st);
     calls := calls st; allocated := allocated st |}.

(** The mode a handler was built for. *)
Definition mode_of (b : Backend) : string :=
  match b with
  | Console _ => "console"
  | File _ => "file"
  | Syslog _ _ => "syslog"
  end.

(** The modes [ReadLoggingConfig] has a construction branch for. *)
Definition recognized (mode : string) : Prop :=
  mode = "console" ∨ mode = "file" ∨ mode = "syslog".

(** The level option documented for each severity name, in lower case:
    trace counts as debug and critical as error. *)
Definition documented (name : string) : option level.Option :=
  if decide (name = "trace") then Some level.AllowDebug
  else if decide (name = "debug") then Some level.AllowDebug
  else if decide (name = "info") then Some level.AllowInfo
  else if decide (name = "warn") then Some level.AllowWarn
  else if decide (name = "error") then Some level.AllowError
  else if decide (name = "critical") then Some level.AllowError
  else None.

(** A name in another letter case: [name] is [n] letter by letter,
    except that it may have the capital where [n] has a letter of a to
    z. *)
Definition same_letter (c d : ascii) : bool :=
  Ascii.eqb c d ||
  ((97 <=? Strings.code d)%nat && (Strings.code d <=? 122)%nat &&
   (Strings.code c + 32 =? Strings.code d)%nat).

Fixpoint case_variant (name n : string) : bool :=
  match name, n with
  | EmptyString, EmptyString => true
  | String c r, String d t => same_letter c d && case_variant r t
  | _, _ => false
  end.

(** The text is made of the letters a to z only. *)
Fixpoint lower_letters (n : string) : bool :=
  match n with
  | EmptyString => true
  | String d t =>
      (97 <=? Strings.code d)%nat && (Strings.code d <=? 122)%nat &&
      lower_letters t
  end.

(** The record an unknown level name leaves on the bootstrap logger. *)
Definition unknown_level (name : string) : list kval :=
  level_Error_Log [KStr "Unknown log level"; KStr "level"; KStr name].

(** The text before the first [c] (all of it when there is none), and
    the text after the first [c]. *)
Fixpoint before (c : ascii) (s : string) : string :=
  match s with
  | EmptyString => EmptyString
  | String d r => if Ascii.eqb d c then EmptyString else String d (before c r)
  end.

Fixpoint after (c : ascii) (s : string) : string :=
  match s with
  | EmptyString => EmptyString
  | String d r => if Ascii.eqb d c then r else after c r
  end.

(** The names the filter strings with a [':'] carry, in order. *)
Definition names (l : list string) : list string :=
  map (before ":") (filter (λ s, Strings.contains s ":" = true) l).

(** The entry a filter string stands for: none without a [':'],
    otherwise the name before the first [':'] with the level resolved
    from the text up to the next [':']. *)
Definition entry (s : string) : option (string * level.Option) :=
  if Strings.contains s ":" then
    Some (before ":" s, (getLogLevelFromString (before ":" (after ":" s))).1)
  else None.

(** What parsing that string writes to the bootstrap logger. *)
Definition entry_out (s : string) : list (list kval) :=
  if Strings.contains s ":" then
    (getLogLevelFromString (before ":" (after ":" s))).2
  else [].

(** The colour that colours nothing. *)
Definition no_colour : term.FgBgColor :=
  {| term.Fg := term.Default; term.Bg := term.Default |}.

(** A list of pairs as the flat list [Log] takes. *)
Definition flat (pairs : list (kval * kval)) : list kval :=
  flat_map (λ p, [p.1; p.2]) pairs.

(** The loggers are bare handlers, as the loader installs them. *)
Definition plain (ml : MultiLoggers) : Prop :=
  Forall (λ b, LogWithFilters.val b = Handler (sink_of (LogWithFilters.val b)))
         (loggers ml).

(** The order of the severities. *)
Definition rank (v : level.Value) : nat :=
  match v with
  | level.DebugValue => 0
  | level.InfoValue => 1
  | level.WarnValue => 2
  | level.ErrorValue => 3
  end.

(** The minimum [New] binds a sink to for a logger name. *)
Definition bound (logger : string) (b : LogWithFilters) : level.Option :=
  default (LogWithFilters.maxLevel b) (LogWithFilters.filters b !! logger).

(** What the four dispatch methods hand to every logger. *)
Definition event (v : level.Value) (msg : string) (args : list kval)
  : list kval :=
  [level_Key; KLevel v; KStr "msg"; KStr msg; KSlice args].

(** The loggers a later state has after those of an earlier one, and
    the handlers they end in. *)
Definition new_loggers (st st' : State) : list LogWithFilters :=
  drop (length (loggers (Root st))) (loggers (Root st')).

Definition new_sinks (st st' : State) : list Sink :=
  map (λ b, sink_of (LogWithFilters.val b)) (new_loggers st st').

(** The default filter table a load reads from the section [log]. *)
Definition default_filters (E : Env) (cfg : ini.File)
  : gmap string level.Option :=
  (getFilters (SplitString E
                 (ini.KeyString (ini.SectionOf cfg "log") "filters"))).1.

(* ================================================================== *)
(** ** Sample inputs *)

Module Sample.

(** Modelled from the spec: [util.SplitString] (package [util], not part
    of [log.go]); the filter string holds [name:level] pairs,
    comma/space-separated. *)
Definition is_sep (c : ascii) : bool := Ascii.eqb c "," || Ascii.eqb c " ".

Fixpoint fields (s : string) (cur : string) : list string :=
  match s with
  | EmptyString => match cur with "" => [] | _ => [cur] end
  | String c r =>
      if is_sep c then
        match cur with "" => fields r "" | _ => cur :: fields r "" end
      else fields r (cur +:+ String c "")
  end.

Definition split_fields (s : string) : list string := fields s "".

(** An environment where the file system and the file writer work, the
    output is not a terminal, and the handlers' [Close] and [Reload]
    answer as given. *)
Definition env (close reload : Sink → option error) : Env :=
  {| SplitString := split_fields;
     unicode_ToLower := λ s, s;
     syslog_Init := λ _ _, None;
     IsTerminal := false;
     Join := λ dir name, dir +:+ "/" +:+ name;
     Dir := λ _, "/var/log/grafana";
     MkdirAll := λ _, None;
     ParseBool := λ _, None;
     ParseInt := λ _, None;
     Init := λ _, None;
     handler_Close := close;
     handler_Reload := reload |}.

Definition never : Sink → option error := λ _, None.

(** Fails on the handler allocated as number [n], works on the others. *)
Definition fails_on (n : nat) (msg : string) : Sink → option error :=
  λ h, if decide (sid h = n) then Some (ExtErr msg) else None.

Definition cfg : ini.File :=
  list_to_map
    [ ("log", {[ "level" := "info" ]});
      ("log.console", ∅);
      ("log.file", {[ "level" := "debug" ]});
      ("log.syslog", ∅);
      ("log.kafka", ∅) ].

(** The same file with a filter for the logger [auth]. *)
Definition cfg_auth : ini.File :=
  <[ "log" := {[ "level" := "info"; "filters" := "auth:error" ]} ]> cfg.

Definition console0 : Sink :=
  {| sid := 0; backend := Console Logfmt |}.

Definition file_writer : FileLogWriter :=
  {| Filename := "/var/log/grafana/grafana.log"; Format := Logfmt;
     Rotate := true; Maxlines := 1000000; Maxsize := 268435456;
     Daily := true; Maxdays := 7 |}.

Definition file0 : Sink := {| sid := 0; backend := File file_writer |}.
Definition file1 : Sink := {| sid := 1; backend := File file_writer |}.
Definition file2 : Sink := {| sid := 2; backend := File file_writer |}.
Definition syslog0 : Sink :=
  {| sid := 0; backend := Syslog (ini.SectionOf cfg "log.syslog") Logfmt |}.

(** A state with the given handler lists and nothing else. *)
Definition with_handlers (toClose toReload : list Sink) : State :=
  {| llog := []; loggersToClose := toClose; loggersToReload := toReload;
     filters := ∅; Root := {| loggers := [] |}; calls := [];
     allocated := 3 |}.

(** The state a load of the modes [file, file] leaves behind. *)
Definition two_files : State :=
  (ReadLoggingConfig (env never never) ["file"; "file"]
     "/var/log/grafana" cfg init).2.

(** The first file handler cannot be reopened. *)
Definition env_reopen_fails : Env :=
  env never (fails_on 0 "file already closed").


Definition syslog_open : State := with_handlers [syslog0] [].

(** Two loads in a row: three modes with the [auth] filter, then the
    console alone without any filter. *)
Definition first_load : result * State :=
  ReadLoggingConfig (env never never) ["console"; "file"; "syslog"]
    "/var/log/grafana" cfg_auth init.

Definition second_load : result * State :=
  ReadLoggingConfig (env never never) ["console"]
    "/var/log/grafana" cfg first_load.2.

(** Default filters [x] and [z], console filters [y] and [z]. *)
Definition cfg_filters : ini.File :=
  list_to_map
    [ ("log", {[ "filters" := "x:warn z:info" ]});
      ("log.console", {[ "filters" := "y:error,z:debug" ]});
      ("log.file", {[ "filters" := "z:error" ]}) ].

(** The level of the section [log] is written in mixed case. *)
Definition cfg_mixed_case : ini.File :=
  {[ "log" := {[ "level" := "WaRn" ]} ]}.

(** A logger for [auth] made after a first load without filters; then
    a second load whose configuration has the filter [auth:error]. *)
Definition before_reload : State :=
  (ReadLoggingConfig (env never never) ["console"]
     "/var/log/grafana" cfg init).2.

Definition auth_logger : MultiLoggers := New "auth" [] before_reload.

Definition after_reload : State :=
  (ReadLoggingConfig (env never never) ["console"]
     "/var/log/grafana" cfg_auth before_reload).2.

End Sample.

(* ================================================================== *)
(** ** Close and Reload: proofs *)

Section LifecycleFacts.
Variable E : Env.

Lemma Close_fold (l : list Sink) (err : option error) (cs : list Call) :
  fold_left (Close_step E) l (err, cs) =
  (match err with
   | Some e => Some e
   | None => head (omap (handler_Close E) l)
   end,
   cs ++ map CallClose l).
Proof.
  revert err cs. induction l as [|h l IH]; intros err cs; simpl.
  - destruct err; by rewrite app_nil_r.
  - destruct (Close_step E (err, cs) h) as [err' cs'] eqn:Hstep.
    rewrite IH. unfold Close_step in Hstep; simpl in Hstep.
    injection Hstep as <- <-. rewrite <- app_assoc; simpl.
    destruct (handler_Close E h) as [e|], err as [e0|]; reflexivity.
Qed.

Lemma Close_spec (st : State) :
  Close E st =
  (head (omap (handler_Close E) (loggersToClose st)),
   {| llog := llog st; loggersToClose := [];
      loggersToReload := loggersToReload st; filters := filters st;
      Root := Root st;
      calls := calls st ++ map CallClose (loggersToClose st);
      allocated := allocated st |}).
Proof. unfold Close. by rewrite Close_fold. Qed.

Lemma Reload_range_spec (l : list Sink) (cs : list Call) :
  Reload_range E l cs =
  (head (omap (handler_Reload E) l),
   cs ++ map CallReload (upto_first_failure E l)).
Proof.
  revert cs. induction l as [|h l IH]; intros cs; simpl.
  - by rewrite app_nil_r.
  - destruct (handler_Reload E h) as [e|] eqn:Hh; simpl.
    + reflexivity.
    + rewrite IH, <- app_assoc. reflexivity.
Qed.

Lemma upto_first_failure_fails (pre post : list Sink) (h : Sink) (e : error) :
  Forall (λ x, handler_Reload E x = None) pre →
  handler_Reload E h = Some e →
  upto_first_failure E (pre ++ h :: post) = pre ++ [h] ∧
  head (omap (handler_Reload E) (pre ++ h :: post)) = Some e.
Proof.
  intros Hpre Hh. induction Hpre as [|x pre Hx _ [IH1 IH2]].
  - simpl. by rewrite Hh.
  - split.
    + simpl. by rewrite Hx, IH1.
    + rewrite <- IH2. simpl. by rewrite Hx.
Qed.

Lemma upto_first_failure_all (l : list Sink) :
  Forall (λ x, handler_Reload E x = None) l →
  upto_first_failure E l = l ∧ head (omap (handler_Reload E) l) = None.
Proof.
  induction 1 as [|x l Hx _ [IH1 IH2]]; [done|]. split.
  - simpl. by rewrite Hx, IH1.
  - rewrite <- IH2. simpl. by rewrite Hx.
Qed.

End LifecycleFacts.

(** [C9]  [Close] is best effort: it calls [Close] on every handler of
    [loggersToClose], in order and whatever the earlier calls answered;
    it returns the first error met, nil if there was none; it leaves
    [loggersToClose] empty.  On any state whose closable list is empty
    it returns nil and changes nothing, so a second and a third [Close]
    do nothing. *)
Theorem Close_best_effort (E : Env) (st : State) :
  calls (Close E st).2 = calls st ++ map CallClose (loggersToClose st) ∧
  (Close E st).1 = head (omap (handler_Close E) (loggersToClose st)) ∧
  loggersToClose (Close E st).2 = [] ∧
  Close E {| llog := llog st; loggersToClose := [];
             loggersToReload := loggersToReload st; filters := filters st;
             Root := Root st; calls := calls st; allocated := allocated st |}
    = (None,
       {| llog := llog st; loggersToClose := [];
          loggersToReload := loggersToReload st; filters := filters st;
          Root := Root st; calls := calls st; allocated := allocated st |}) ∧
  Close E (Close E st).2 = (None, (Close E st).2) ∧
  Close E (Close E (Close E st).2).2 = (None, (Close E st).2).
Proof.
  rewrite !Close_spec; simpl. rewrite !app_nil_r. done.
Qed.

(** [C8]  [Reload] is fail fast.  When the handlers before [h] in
    [loggersToReload] reload without error and [h] fails with [e],
    [Reload] returns [e] after calling [Reload] on exactly those handlers
    and [h], in order, and on none that follows.  When no handler fails
    it returns nil after calling all of them in order. *)
Theorem Reload_fail_fast (E : Env) (st : State) :
  (∀ pre h post e,
     loggersToReload st = pre ++ h :: post →
     Forall (λ x, handler_Reload E x = None) pre →
     handler_Reload E h = Some e →
     (Reload E st).1 = Some e ∧
     calls (Reload E st).2 = calls st ++ map CallReload (pre ++ [h])) ∧
  (Forall (λ x, handler_Reload E x = None) (loggersToReload st) →
     (Reload E st).1 = None ∧
     calls (Reload E st).2 = calls st ++ map CallReload (loggersToReload st)).
Proof.
  unfold Reload. rewrite Reload_range_spec; simpl. split.
  - intros pre h post e -> Hpre Hh.
    by destruct (upto_first_failure_fails E pre post h e Hpre Hh) as [-> ->].
  - intros Hall. by destruct (upto_first_failure_all E _ Hall) as [-> ->].
Qed.

(** Three reloadable handlers, the second fails: the third is never
    called; and with no failure all three are. *)
Lemma Reload_fail_fast_witness :
  ((Reload (Sample.env Sample.never (Sample.fails_on 1 "reopen"))
      (Sample.with_handlers [] [Sample.file0; Sample.file1; Sample.file2])).1
     = Some (ExtErr "reopen") ∧
   calls (Reload (Sample.env Sample.never (Sample.fails_on 1 "reopen"))
      (Sample.with_handlers [] [Sample.file0; Sample.file1; Sample.file2])).2
     = [CallReload Sample.file0; CallReload Sample.file1]) ∧
  ((Reload (Sample.env Sample.never Sample.never)
      (Sample.with_handlers [] [Sample.file0; Sample.file1; Sample.file2])).1
     = None ∧
   calls (Reload (Sample.env Sample.never Sample.never)
      (Sample.with_handlers [] [Sample.file0; Sample.file1; Sample.file2])).2
     = [CallReload Sample.file0; CallReload Sample.file1; CallReload Sample.file2]).
Proof.
  split.
  - apply (proj1 (Reload_fail_fast
                    (Sample.env Sample.never (Sample.fails_on 1 "reopen"))
                    (Sample.with_handlers [] [Sample.file0; Sample.file1; Sample.file2]))
             [Sample.file0] Sample.file1 [Sample.file2] (ExtErr "reopen")).
    + reflexivity.
    + repeat constructor.
    + reflexivity.
  - apply (proj2 (Reload_fail_fast
                    (Sample.env Sample.never Sample.never)
                    (Sample.with_handlers [] [Sample.file0; Sample.file1; Sample.file2]))).
    repeat constructor.
Defined.

(* ================================================================== *)
(** ** New and the dispatch: proofs *)

(** What [New] makes of one entry of [Root.loggers]. *)
Lemma New_loggers (logger : string) (ctx : list kval) (st : State) :
  loggers (New logger ctx st) =
  map (λ s,
         {| LogWithFilters.val :=
              NewFilter
                (With (LogWithFilters.val s)
                      [KSlice (KStr "logger" :: KStr logger :: ctx)])
                (default (LogWithFilters.maxLevel s)
                         (LogWithFilters.filters s !! logger));
            LogWithFilters.filters := LogWithFilters.filters s;
            LogWithFilters.maxLevel := LogWithFilters.maxLevel s |})
      (loggers (Root st)).
Proof.
  unfold New.
  enough (∀ l acc,
             loggers (fold_left (New_step logger ctx) l {| loggers := acc |}) =
             acc ++ map (λ s,
                {| LogWithFilters.val :=
                     NewFilter
                       (With (LogWithFilters.val s)
                             [KSlice (KStr "logger" :: KStr logger :: ctx)])
                       (default (LogWithFilters.maxLevel s)
                                (LogWithFilters.filters s !! logger));
                   LogWithFilters.filters := LogWithFilters.filters s;
                   LogWithFilters.maxLevel := LogWithFilters.maxLevel s |}) l)
    as H by apply (H _ []).
  induction l as [|s l IH]; intros acc; simpl.
  - by rewrite app_nil_r.
  - unfold New_step at 2; simpl. rewrite IH, <- app_assoc; simpl.
    by destruct (LogWithFilters.filters s !! logger).
Qed.

(** A record goes to the handler the logger ends in, and nowhere else. *)
Lemma Log_sink (l : Logger) (keyvals : list kval) :
  Forall (λ w, w.1 = sink_of l) (Log l keyvals).
Proof.
  revert keyvals. induction l as [s|next IH ctx|next IH allowed];
    intros keyvals; simpl.
  - by repeat constructor.
  - destruct ctx; apply IH.
  - destruct (first_level keyvals) as [v|]; [|apply IH].
    destruct (level.allows allowed v); [apply IH|constructor].
Qed.

(** [C10]  [Close] empties [loggersToClose] and changes neither
    [loggersToReload] nor [Root] nor the global filter table.  So a
    [Reload] after [Close] walks the list as it was: it calls [Reload],
    in order, on every reloadable handler up to and including the first
    whose reload fails, closed or not; when no reload fails, every
    handler that was just closed and is reloadable is reloaded.  What
    the handlers answer to [Reload] once they are closed, [E'], need not
    be what they answered before.  A Named Logger made after [Close] is
    the one made before it, on the same handlers. *)
Theorem Close_frame (E E' : Env) (st : State) :
  loggersToClose (Close E st).2 = [] ∧
  loggersToReload (Close E st).2 = loggersToReload st ∧
  Root (Close E st).2 = Root st ∧
  filters (Close E st).2 = filters st ∧
  calls (Reload E' (Close E st).2).2 =
    calls st ++ map CallClose (loggersToClose st)
             ++ map CallReload (upto_first_failure E' (loggersToReload st)) ∧
  (Forall (λ x, handler_Reload E' x = None) (loggersToReload st) →
   ∀ h, h ∈ loggersToClose st → h ∈ loggersToReload st →
        CallClose h ∈ calls (Reload E' (Close E st).2).2 ∧
        CallReload h ∈ calls (Reload E' (Close E st).2).2) ∧
  (∀ logger ctx, New logger ctx (Close E st).2 = New logger ctx st) ∧
  (∀ logger ctx,
     map (λ b, sink_of (LogWithFilters.val b))
         (loggers (New logger ctx (Close E st).2)) =
     map (λ b, sink_of (LogWithFilters.val b)) (loggers (Root st))).
Proof.
  rewrite Close_spec; simpl. unfold Reload; simpl.
  rewrite !Reload_range_spec; simpl. rewrite <- app_assoc.
  do 5 (split; [reflexivity|]). split; [|split; [reflexivity|]].
  - intros Hall h Hc Hr.
    destruct (upto_first_failure_all E' _ Hall) as [-> _].
    rewrite !elem_of_app, !list_elem_of_fmap. split.
    + right. left. by exists h.
    + right. right. by exists h.
  - intros logger ctx. rewrite New_loggers; simpl.
    rewrite map_map; simpl. reflexivity.
Qed.

(** Two file handlers that reload without error: both are closed, then
    both are reloaded. *)
Lemma Close_frame_witness :
  CallClose Sample.file1
    ∈ calls (Reload (Sample.env Sample.never Sample.never)
               (Close (Sample.env Sample.never Sample.never) Sample.two_files).2).2 ∧
  CallReload Sample.file1
    ∈ calls (Reload (Sample.env Sample.never Sample.never)
               (Close (Sample.env Sample.never Sample.never) Sample.two_files).2).2.
Proof.
  apply (proj1 (proj2 (proj2 (proj2 (proj2 (proj2
           (Close_frame (Sample.env Sample.never Sample.never)
                        (Sample.env Sample.never Sample.never)
                        Sample.two_files))))))).
  - vm_compute. repeat constructor.
  - vm_compute. apply list_elem_of_In; simpl; auto.
  - vm_compute. apply list_elem_of_In; simpl; auto.
Defined.

(** Against [C10] as it is worded: two file handlers are closed, the
    reload of the first fails, and [Reload] is never called on the
    second although it was just closed. *)
Lemma Reload_after_Close_skips_closed_handler :
  loggersToReload Sample.two_files ≠ [] ∧
  Sample.file1 ∈ loggersToClose Sample.two_files ∧
  CallClose Sample.file1 ∈ calls (Close Sample.env_reopen_fails Sample.two_files).2 ∧
  CallReload Sample.file1 ∉
    calls (Reload Sample.env_reopen_fails
             (Close Sample.env_reopen_fails Sample.two_files).2).2.
Proof.
  assert (loggersToReload Sample.two_files = [Sample.file0; Sample.file1]) as Hr
    by (vm_compute; reflexivity).
  assert (loggersToClose Sample.two_files = [Sample.file0; Sample.file1]) as Hc
    by (vm_compute; reflexivity).
  assert (calls (Close Sample.env_reopen_fails Sample.two_files).2 =
          [CallInit Sample.file0; CallInit Sample.file1;
           CallClose Sample.file0; CallClose Sample.file1]) as Hcc
    by (vm_compute; reflexivity).
  assert (calls (Reload Sample.env_reopen_fails
                   (Close Sample.env_reopen_fails Sample.two_files).2).2 =
          [CallInit Sample.file0; CallInit Sample.file1;
           CallClose Sample.file0; CallClose Sample.file1;
           CallReload Sample.file0]) as Hcr
    by (vm_compute; reflexivity).
  rewrite Hr, Hc, Hcc, Hcr. repeat split.
  - discriminate.
  - apply list_elem_of_In; simpl; auto.
  - apply list_elem_of_In; simpl; auto 10.
  - intros H. apply list_elem_of_In in H; simpl in H.
    repeat (destruct H as [H|H]; [discriminate H|]). destruct H.
Qed.

(** [C4]  [New] binds the filter of every sink when the logger is made:
    the bound minimum is the sink's entry for the logger's name when
    there is one, the sink's [maxLevel] otherwise, and it is this
    minimum that decides which records reach the sink.  The binding is
    frozen: an entry for the name put into the filter tables afterwards
    does not change what the logger lets through, while a logger made
    after that is bound to the new entry. *)
Theorem New_binds_filter (st : State) (logger : string) (ctx : list kval) :
  map (λ b, bound_min (LogWithFilters.val b)) (loggers (New logger ctx st)) =
    map (λ s, Some (default (LogWithFilters.maxLevel s)
                            (LogWithFilters.filters s !! logger)))
        (loggers (Root st)) ∧
  (∀ v msg args,
     dispatch v (New logger ctx st) msg args =
     flat_map
       (λ s,
          if level.allows
               (default (LogWithFilters.maxLevel s)
                        (LogWithFilters.filters s !! logger)) v
          then Log (LogWithFilters.val s)
                   [KSlice (KStr "logger" :: KStr logger :: ctx); KMissing;
                    level_Key; KLevel v; KStr "msg"; KStr msg; KSlice args;
                    KMissing]
          else [])
       (loggers (Root st))) ∧
  (∀ o v msg args,
     dispatch v (add_filter logger o (New logger ctx st)) msg args =
     dispatch v (New logger ctx st) msg args) ∧
  (∀ o,
     map (λ b, bound_min (LogWithFilters.val b))
         (loggers (New logger ctx (Root_add_filter logger o st))) =
     map (λ _, Some o) (loggers (Root st))).
Proof.
  repeat split.
  - rewrite New_loggers, map_map. reflexivity.
  - intros v msg args. unfold dispatch. rewrite New_loggers.
    induction (loggers (Root st)) as [|s l IH]; [done|].
    simpl. rewrite IH.
    by destruct (level.allows _ v).
  - intros o v msg args. unfold dispatch, add_filter; simpl.
    induction (loggers (New logger ctx st)) as [|b l IH]; [done|].
    simpl. by rewrite IH.
  - intros o. rewrite New_loggers; simpl. rewrite !map_map; simpl.
    apply map_ext. intros s. by rewrite lookup_insert_eq.
Qed.

(* ================================================================== *)
(** ** Merging the filter tables: proofs *)

(** The loop copies exactly the entries whose key the target lacks,
    whatever the order in which the source is walked. *)
Lemma range_copy_absent_union (src dst : gmap string level.Option) :
  range_copy_absent src dst = dst ∪ src.
Proof.
  unfold range_copy_absent.
  apply (map_fold_weak_ind (λ r m, r = dst ∪ m)).
  - symmetry. apply (right_id_L ∅ (∪)).
  - intros k v m r Hk ->. unfold copy_absent.
    apply map_eq. intros j.
    destruct ((dst ∪ m) !! k) as [w|] eqn:Hw.
    + rewrite !lookup_union. rewrite lookup_union, Hk in Hw.
      destruct (decide (k = j)) as [->|Hne].
      * rewrite lookup_insert_eq, Hk.
        destruct (dst !! j); [done|]. simpl in Hw. discriminate.
      * by rewrite lookup_insert_ne.
    + rewrite lookup_union in Hw. rewrite !lookup_union.
      destruct (decide (k = j)) as [->|Hne].
      * rewrite !lookup_insert_eq.
        destruct (dst !! j); [|done]. simpl in Hw.
        destruct (m !! j); discriminate.
      * by rewrite !lookup_insert_ne, lookup_union.
Qed.

Lemma lookup_union_match (a b : gmap string level.Option) (k : string) :
  (a ∪ b) !! k = match a !! k with Some v => Some v | None => b !! k end.
Proof.
  rewrite lookup_union. destruct (a !! k), (b !! k); reflexivity.
Qed.

(* ================================================================== *)
(** ** The loader: proofs *)

Section LoaderFacts.
Variable E : Env.

Lemma switch_unrecognized logsPath sec format mode st :
  ¬ recognized mode →
  ReadLoggingConfig_switch E logsPath sec format mode st = inl (None, st).
Proof.
  intros Hn. unfold ReadLoggingConfig_switch, recognized in *.
  repeat case_decide; tauto.
Qed.

(** A handler comes out of the [switch] only for a recognized mode; it
    is a fresh one of that mode, registered for close and reload as the
    mode asks. *)
Lemma switch_built logsPath sec format mode st v st' :
  ReadLoggingConfig_switch E logsPath sec format mode st = inl (Some v, st') →
  ∃ h, v = Handler h ∧ sid h = allocated st ∧ mode_of (backend h) = mode ∧
       loggersToClose st' =
         loggersToClose st ++ (if decide (mode = "console") then [] else [h]) ∧
       loggersToReload st' =
         loggersToReload st ++ (if decide (mode = "file") then [h] else []) ∧
       Root st' = Root st ∧ filters st' = filters st ∧
       calls st' =
         calls st ++ map CallInit (if decide (mode = "file") then [h] else []) ∧
       llog st' = llog st ∧
       allocated st' = S (allocated st).
Proof.
  unfold ReadLoggingConfig_switch. intros H.
  destruct (decide (mode = "console")) as [->|Hc].
  { injection H as <- <-. eexists; simpl.
    rewrite !app_nil_r. repeat split; reflexivity. }
  destruct (decide (mode = "file")) as [->|Hf].
  { destruct (MkdirAll E _); [discriminate|].
    destruct (Init E _); [discriminate|].
    injection H as <- <-. eexists; simpl.
    rewrite ?app_nil_r. repeat split; reflexivity. }
  destruct (decide (mode = "syslog")) as [->|Hs]; [|discriminate].
  unfold NewSyslog in H. destruct (syslog_Init E _ _); [discriminate|].
  injection H as <- <-. eexists; simpl.
  rewrite ?app_nil_r. repeat split; reflexivity.
Qed.

Lemma switch_nil logsPath sec format mode st st' :
  ReadLoggingConfig_switch E logsPath sec format mode st = inl (None, st') →
  ¬ recognized mode ∧ st' = st.
Proof.
  unfold ReadLoggingConfig_switch, recognized. intros H.
  repeat case_decide; subst;
    repeat (match type of H with
            | context [match ?x with _ => _ end] => destruct x
            end);
    try discriminate.
  injection H as <-. split; [|done]. intros [?|[?|?]]; done.
Qed.

(** When the [switch] leaves the function it returns an error (the
    file branch) or ends the process (the syslog branch); the only
    handler call made on the way is the [Init] of a file writer. *)
Lemma switch_leaves logsPath sec format mode st r st' :
  ReadLoggingConfig_switch E logsPath sec format mode st = inr (r, st') →
  ((∃ e, r = Return (Some e)) ∧ mode = "file" ∨
   (∃ e, r = Fatal e ∧ syslog_Init E sec format = Some e) ∧ mode = "syslog") ∧
  Root st' = Root st ∧ filters st' = filters st ∧
  loggersToClose st' = loggersToClose st ∧
  loggersToReload st' = loggersToReload st ∧
  ∃ hs, calls st' = calls st ++ map CallInit hs ∧ (length hs ≤ 1)%nat ∧
        Forall (λ h, Init E h ≠ None) hs.
Proof.
  unfold ReadLoggingConfig_switch. intros H.
  destruct (decide (mode = "console")); [discriminate|].
  destruct (decide (mode = "file")) as [->|].
  - destruct (MkdirAll E _).
    + injection H as <- <-. simpl.
      split; [left; eauto|]. do 4 (split; [reflexivity|]).
      exists []. rewrite app_nil_r. split; [reflexivity|].
      split; [simpl; lia|constructor].
    + destruct (Init E _) eqn:Hi; [|discriminate].
      injection H as <- <-. simpl.
      split; [left; eauto|]. do 4 (split; [reflexivity|]).
      eexists [_]. split; [reflexivity|].
      split; [simpl; lia|]. constructor; [|constructor]. by rewrite Hi.
  - destruct (decide (mode = "syslog")) as [->|]; [|discriminate].
    unfold NewSyslog in H. destruct (syslog_Init E _ _) eqn:Hn; [|discriminate].
    injection H as <- <-.
    split; [right; eauto|]. do 4 (split; [reflexivity|]).
    exists []. rewrite app_nil_r. split; [reflexivity|].
    split; [simpl; lia|constructor].
Qed.

(** A turn of the loop that goes on has appended one handler of the
    mode to [Root.loggers], with the merged table, and has folded that
    table into [filters]. *)
Lemma mode_Continue logsPath cfg dl df mode st st' :
  ReadLoggingConfig_mode E logsPath cfg dl df mode st = Continue st' →
  ∃ sec h,
    cfg !! ("log." +:+ Strings.TrimSpace mode) = Some sec ∧
    sid h = allocated st ∧
    mode_of (backend h) = Strings.TrimSpace mode ∧
    loggers (Root st') =
      loggers (Root st) ++
      [ {| LogWithFilters.val := Handler h;
           LogWithFilters.filters :=
             (getFilters (SplitString E (ini.KeyString
                (ini.SectionOf cfg ("log." +:+ Strings.TrimSpace mode))
                "filters"))).1 ∪ df;
           LogWithFilters.maxLevel :=
             (getLogLevelFromConfig E
                ("log." +:+ Strings.TrimSpace mode) dl cfg).1.2 |} ] ∧
    filters st' =
      filters st ∪
      ((getFilters (SplitString E (ini.KeyString
          (ini.SectionOf cfg ("log." +:+ Strings.TrimSpace mode))
          "filters"))).1 ∪ df) ∧
    loggersToClose st' =
      loggersToClose st ++
      (if decide (Strings.TrimSpace mode = "console") then [] else [h]) ∧
    loggersToReload st' =
      loggersToReload st ++
      (if decide (Strings.TrimSpace mode = "file") then [h] else []) ∧
    calls st' =
      calls st ++
      map CallInit
          (if decide (Strings.TrimSpace mode = "file") then [h] else []) ∧
    allocated st' = S (allocated st).
Proof.
  unfold ReadLoggingConfig_mode, ini.GetSection, ini.SectionOf. intros H.
  destruct (cfg !! _) as [sec|] eqn:Hsec; [|discriminate].
  destruct (getLogLevelFromConfig _ _ dl cfg) as [[ln lvl] out1].
  destruct (getFilters _) as [M out2] eqn:HM.
  destruct (ReadLoggingConfig_switch _ _ _ _ _ _) as [[[v|] st1]|[r st1]] eqn:Hsw;
    try discriminate.
  apply switch_built in Hsw as (h & -> & Hid & Hmode & Hc & Hr & HR & Hf & Hcs & _ & Ha).
  injection H as <-.
  exists sec, h. simpl in *. rewrite !range_copy_absent_union, HR, Hf.
  repeat split; assumption || reflexivity.
Qed.

(** A turn that leaves the function never returns nil, and it has
    installed nothing. *)
Lemma mode_Leave logsPath cfg dl df mode st r st' :
  ReadLoggingConfig_mode E logsPath cfg dl df mode st = Leave r st' →
  r ≠ Return None ∧
  Root st' = Root st ∧ filters st' = filters st ∧
  loggersToClose st' = loggersToClose st ∧
  loggersToReload st' = loggersToReload st ∧
  ∃ hs, calls st' = calls st ++ map CallInit hs ∧ (length hs ≤ 1)%nat ∧
        Forall (λ h, Init E h ≠ None) hs.
Proof.
  unfold ReadLoggingConfig_mode, ini.GetSection. intros H.
  destruct (cfg !! _) as [sec|] eqn:Hsec.
  - destruct (getLogLevelFromConfig _ _ dl cfg) as [[ln lvl] out1].
    destruct (getFilters _) as [M out2].
    destruct (ReadLoggingConfig_switch _ _ _ _ _ _) as [[[v|] st1]|[r1 st1]] eqn:Hsw;
      try discriminate.
    + apply switch_nil in Hsw as [_ ->]. injection H as <- <-.
      do 5 (split; [done|]). exists []. rewrite app_nil_r.
      split; [reflexivity|]. split; [simpl; lia|constructor].
    + apply switch_leaves in Hsw as (Hr & ? & ? & ? & ? & ?).
      injection H as <- <-.
      split; [|done]. by destruct Hr as [[[e ->] _]|[(e & -> & _) _]].
  - injection H as <- <-.
    do 5 (split; [done|]). exists []. rewrite app_nil_r.
    split; [reflexivity|]. split; [simpl; lia|constructor].
Qed.

(** A mode without a construction branch always leaves the function:
    with an error and the diagnostic when the file has no section for
    it, with the panic when it has one; no handler is built for it. *)
Lemma mode_unrecognized logsPath cfg dl df mode st :
  ¬ recognized (Strings.TrimSpace mode) →
  ∃ r st',
    ReadLoggingConfig_mode E logsPath cfg dl df mode st = Leave r st' ∧
    Root st' = Root st ∧ filters st' = filters st ∧
    loggersToClose st' = loggersToClose st ∧
    loggersToReload st' = loggersToReload st ∧
    allocated st' = allocated st ∧
    match cfg !! ("log." +:+ Strings.TrimSpace mode) with
    | None =>
        r = Return (Some (Wrapf
              (NoSection ("log." +:+ Strings.TrimSpace mode))
              "failed to get config section log.%s" [Strings.TrimSpace mode])) ∧
        llog st' =
          llog st ++ [level_Error_Log [KStr "Unknown log mode"; KStr "mode";
                                       KStr (Strings.TrimSpace mode)]]
    | Some _ =>
        r = Panic "Handler is uninitialized for mode %q" [Strings.TrimSpace mode]
    end.
Proof.
  intros Hn. unfold ReadLoggingConfig_mode, ini.GetSection.
  destruct (cfg !! _) as [sec|] eqn:Hsec.
  - destruct (getLogLevelFromConfig _ _ dl cfg) as [[ln lvl] out1].
    destruct (getFilters _) as [M out2].
    rewrite switch_unrecognized by assumption.
    eexists _, _. repeat split; reflexivity.
  - eexists _, _. repeat split; reflexivity.
Qed.

(** A load that returns nil has appended one handler per mode, in the
    order of the modes, after the handlers [Root] already had; the
    entries of [filters] and the reloadable handlers it started from are
    still there. *)
Lemma range_appends logsPath cfg dl df modes st st' :
  ReadLoggingConfig_range E logsPath cfg dl df modes st = (Return None, st') →
  ∃ news rl,
    loggers (Root st') = loggers (Root st) ++ news ∧
    map (λ b, mode_of (backend (sink_of (LogWithFilters.val b)))) news =
      map Strings.TrimSpace modes ∧
    loggersToReload st' = loggersToReload st ++ rl ∧
    (∀ k v, filters st !! k = Some v → filters st' !! k = Some v).
Proof.
  revert st. induction modes as [|mode modes IH]; intros st H; simpl in H.
  - injection H as <-. exists [], []. rewrite !app_nil_r. done.
  - destruct (ReadLoggingConfig_mode _ _ _ _ _ _ _) as [st1|r st1] eqn:Hm.
    + apply mode_Continue in Hm
        as (sec & h & _ & _ & Hmode & HR & Hf & _ & Hr & _ & _).
      apply IH in H as (news & rl & HR' & Hmodes & Hr' & Hf').
      rewrite HR, <- app_assoc in HR'. rewrite Hr, <- app_assoc in Hr'.
      eexists _, _. split; [exact HR'|]. split; [|split; [exact Hr'|]].
      * simpl. by rewrite Hmode, Hmodes.
      * intros k v Hk. apply Hf'. rewrite Hf.
        by apply lookup_union_Some_l.
    + injection H as -> <-. by apply mode_Leave in Hm as [? _].
Qed.

Lemma range_unrecognized logsPath cfg dl df modes st mode :
  mode ∈ modes → ¬ recognized (Strings.TrimSpace mode) →
  (ReadLoggingConfig_range E logsPath cfg dl df modes st).1 ≠ Return None.
Proof.
  intros Hin Hn. revert st.
  induction modes as [|m modes IH]; intros st; [by apply not_elem_of_nil in Hin|].
  simpl.
  destruct (ReadLoggingConfig_mode _ _ _ _ _ m _) as [st1|r st1] eqn:Hm.
  - apply elem_of_cons in Hin as [->|Hin]; [|by apply IH].
    destruct (mode_unrecognized logsPath cfg dl df m st Hn) as (r & st2 & Hm' & _).
    congruence.
  - simpl. by apply mode_Leave in Hm as [? _].
Qed.

(** The loop over a list of modes in two parts: the second part is
    gone through only when the first one has returned nil. *)
Lemma range_split logsPath cfg dl df pre post st :
  ReadLoggingConfig_range E logsPath cfg dl df (pre ++ post) st =
  match ReadLoggingConfig_range E logsPath cfg dl df pre st with
  | (Return None, st1) => ReadLoggingConfig_range E logsPath cfg dl df post st1
  | other => other
  end.
Proof.
  revert st. induction pre as [|m pre IH]; intros st; simpl; [done|].
  destruct (ReadLoggingConfig_mode _ _ _ _ _ _ _) as [st1|r st1] eqn:Hm; [apply IH|].
  apply mode_Leave in Hm as [Hne _]. by destruct r as [[e|]|f a|e].
Qed.

(** The loop never goes past a mode without a construction branch. *)
Lemma range_cut logsPath cfg dl df pre mode post st :
  ¬ recognized (Strings.TrimSpace mode) →
  ReadLoggingConfig_range E logsPath cfg dl df (pre ++ mode :: post) st =
  ReadLoggingConfig_range E logsPath cfg dl df (pre ++ [mode]) st.
Proof.
  intros Hn. rewrite !range_split.
  destruct (ReadLoggingConfig_range _ _ _ _ _ pre st) as [[[e|]|f a|e] st1];
    try reflexivity.
  simpl.
  destruct (mode_unrecognized logsPath cfg dl df mode st1 Hn) as (r & st2 & -> & _).
  reflexivity.
Qed.

(** The handler calls of the loop: [Init] on each file writer it
    registers for reload, in order, and on at most one more, whose
    [Init] failed. *)
Lemma range_calls logsPath cfg dl df modes st r st' :
  ReadLoggingConfig_range E logsPath cfg dl df modes st = (r, st') →
  ∃ rl failed,
    loggersToReload st' = loggersToReload st ++ rl ∧
    calls st' = calls st ++ map CallInit (rl ++ failed) ∧
    (length failed ≤ 1)%nat ∧
    Forall (λ h, Init E h ≠ None) failed ∧
    (r = Return None → failed = []).
Proof.
  revert st. induction modes as [|mode modes IH]; intros st H; simpl in H.
  - injection H as <- <-. exists [], []. rewrite !app_nil_r.
    split_and!; [done|done|simpl; lia|constructor|done].
  - destruct (ReadLoggingConfig_mode _ _ _ _ _ _ _) as [st1|r1 st1] eqn:Hm.
    + apply mode_Continue in Hm as (sec & h & _ & _ & _ & _ & _ & _ & Hr & Hc & _).
      apply IH in H as (rl & failed & Hr' & Hc' & Hlen & Hfail & Hnil).
      rewrite Hr, <- app_assoc in Hr'. rewrite Hc, <- app_assoc, <- map_app in Hc'.
      eexists _, failed. split; [exact Hr'|].
      by rewrite <- app_assoc.
    + injection H as <- <-.
      apply mode_Leave in Hm as (Hne & _ & _ & _ & Hr & hs & Hc & Hlen & Hfail).
      exists [], hs. by rewrite app_nil_r.
Qed.

(** What a load that returns nil has done to the registry: appended. *)
Lemma ReadLoggingConfig_appends modes logsPath cfg st st' :
  ReadLoggingConfig E modes logsPath cfg st = (Return None, st') →
  ∃ news rl,
    loggers (Root st') = loggers (Root st) ++ news ∧
    map (λ b, mode_of (backend (sink_of (LogWithFilters.val b)))) news =
      map Strings.TrimSpace modes ∧
    loggersToReload st' = loggersToReload st ++ rl ∧
    (∀ k v, filters st !! k = Some v → filters st' !! k = Some v).
Proof.
  unfold ReadLoggingConfig. rewrite Close_spec.
  destruct (head _); [discriminate|].
  destruct (getLogLevelFromConfig _ _ _ _) as [[dl ?] out1].
  destruct (getFilters _) as [df out2].
  intros H. by apply range_appends in H.
Qed.

(** From a registry without handlers, as [init] leaves it, a load that
    returns nil leaves exactly one handler per mode, in order. *)
Lemma ReadLoggingConfig_first_load modes logsPath cfg st st' :
  loggers (Root st) = [] →
  ReadLoggingConfig E modes logsPath cfg st = (Return None, st') →
  map (λ b, mode_of (backend (sink_of (LogWithFilters.val b))))
      (loggers (Root st')) = map Strings.TrimSpace modes.
Proof.
  intros Hnil H.
  apply ReadLoggingConfig_appends in H as (news & rl & HR & Hm & _).
  by rewrite HR, Hnil.
Qed.

End LoaderFacts.




(** [C3]  A mode that is none of console, file and syslog (once the
    white space around it is trimmed) gets no handler, and the load does
    not go past it: a list of modes that holds one never makes
    [ReadLoggingConfig] return nil.  The turn of the loop that meets it
    leaves the function, with an error and the "Unknown log mode"
    diagnostic when the file has no section [log.<mode>], with the panic
    when it has one; it builds nothing and registers nothing.  The modes
    that come after it are never looked at: the load gives the same
    result and the same state whatever follows the mode in the list, and
    when the modes before it have all been built, the result and the
    state of the load are those of the turn that met it. *)
Theorem unrecognized_mode_stops_load
    (E : Env) (modes : list string) (logsPath : string) (cfg : ini.File)
    (st : State) (mode : string) :
  mode ∈ modes → ¬ recognized (Strings.TrimSpace mode) →
  (ReadLoggingConfig E modes logsPath cfg st).1 ≠ Return None ∧
  (∀ dl df st0, ∃ r st',
     ReadLoggingConfig_mode E logsPath cfg dl df mode st0 = Leave r st' ∧
     Root st' = Root st0 ∧ filters st' = filters st0 ∧
     loggersToClose st' = loggersToClose st0 ∧
     loggersToReload st' = loggersToReload st0 ∧
     allocated st' = allocated st0 ∧
     match cfg !! ("log." +:+ Strings.TrimSpace mode) with
     | None =>
         r = Return (Some (Wrapf
               (NoSection ("log." +:+ Strings.TrimSpace mode))
               "failed to get config section log.%s" [Strings.TrimSpace mode])) ∧
         llog st' =
           llog st0 ++ [level_Error_Log [KStr "Unknown log mode"; KStr "mode";
                                         KStr (Strings.TrimSpace mode)]]
     | Some _ =>
         r = Panic "Handler is uninitialized for mode %q" [Strings.TrimSpace mode]
     end) ∧
  (∀ pre post st0,
     ReadLoggingConfig E (pre ++ mode :: post) logsPath cfg st0 =
     ReadLoggingConfig E (pre ++ [mode]) logsPath cfg st0) ∧
  (∀ pre post dl df st0 st1,
     ReadLoggingConfig_range E logsPath cfg dl df pre st0 = (Return None, st1) →
     ∃ r st',
       ReadLoggingConfig_mode E logsPath cfg dl df mode st1 = Leave r st' ∧
       ReadLoggingConfig_range E logsPath cfg dl df (pre ++ mode :: post) st0 =
         (r, st')).
Proof.
  intros Hin Hn. split; [|split; [|split]].
  - unfold ReadLoggingConfig.
    destruct (Close E st) as [[e|] st1]; [discriminate|].
    destruct (getLogLevelFromConfig _ _ _ _) as [[dl ?] out1].
    destruct (getFilters _) as [df out2].
    by apply range_unrecognized with mode.
  - intros dl df st0. by apply mode_unrecognized.
  - intros pre post st0. unfold ReadLoggingConfig.
    destruct (Close E st0) as [[e|] st1]; [reflexivity|].
    destruct (getLogLevelFromConfig _ _ _ _) as [[dl ?] out1].
    destruct (getFilters _) as [df out2].
    by apply range_cut.
  - intros pre post dl df st0 st1 Hpre.
    destruct (mode_unrecognized E logsPath cfg dl df mode st1 Hn)
      as (r & st2 & Hm & _).
    exists r, st2. split; [exact Hm|].
    rewrite range_split, Hpre. simpl. by rewrite Hm.
Qed.

Lemma unrecognized_mode_stops_load_witness :
  (ReadLoggingConfig (Sample.env Sample.never Sample.never)
     ["console"; " kafka "; "file"] "/var/log/grafana" Sample.cfg init).1
  ≠ Return None.
Proof.
  apply (unrecognized_mode_stops_load (Sample.env Sample.never Sample.never)
           ["console"; " kafka "; "file"] "/var/log/grafana" Sample.cfg init
           " kafka ").
  - apply list_elem_of_In; simpl; auto.
  - vm_compute. intros [H|[H|H]]; discriminate H.
Defined.

(** Against [C3] as it is worded: the mode [nosuch] has no section and
    the load is aborted with an error before the mode [file] is
    reached, the console handler built before it staying in [Root]; the
    mode [kafka] has a section and the load panics. *)
Lemma unrecognized_mode_aborts_or_panics :
  (ReadLoggingConfig (Sample.env Sample.never Sample.never)
     ["console"; "nosuch"; "file"] "/var/log/grafana" Sample.cfg init).1
    = Return (Some (Wrapf (NoSection "log.nosuch")
                      "failed to get config section log.%s" ["nosuch"])) ∧
  map (λ b, mode_of (backend (sink_of (LogWithFilters.val b))))
      (loggers (Root (ReadLoggingConfig (Sample.env Sample.never Sample.never)
         ["console"; "nosuch"; "file"] "/var/log/grafana" Sample.cfg init).2))
    = ["console"] ∧
  (ReadLoggingConfig (Sample.env Sample.never Sample.never)
     ["console"; "kafka"; "file"] "/var/log/grafana" Sample.cfg init).1
    = Panic "Handler is uninitialized for mode %q" ["kafka"].
Proof. repeat split; vm_compute; reflexivity. Qed.

(** The white space trimmed from a mode is that of Unicode: a no-break
    space (U+00A0, the bytes C2 A0) before [console] and a next-line
    character (U+0085) after it leave the mode [console]. *)
Example TrimSpace_unicode :
  Strings.TrimSpace
    (String (ascii_of_nat 194) (String (ascii_of_nat 160)
       ("console" +:+ String (ascii_of_nat 194)
                        (String (ascii_of_nat 133) EmptyString))))
  = "console".
Proof. vm_compute. reflexivity. Qed.

(** [C1]  Two loads in a row, both returning nil: after the second one,
    for the mode console alone, [Root] still holds the three handlers of
    the first load (the file and syslog handlers the second load has
    closed among them) before the new one, the closed file handler is
    still in [loggersToReload], and [filters] still has the entry for
    [auth] that only the first configuration had. *)
Theorem second_load_keeps_first :
  Sample.first_load.1 = Return None ∧
  Sample.second_load.1 = Return None ∧
  map (λ b, (sid (sink_of (LogWithFilters.val b)),
             mode_of (backend (sink_of (LogWithFilters.val b)))))
      (loggers (Root Sample.second_load.2))
    = [(0, "console"); (1, "file"); (2, "syslog"); (3, "console")] ∧
  calls Sample.second_load.2
    = [CallInit Sample.file1;
       CallClose Sample.file1;
       CallClose {| sid := 2;
                    backend := Syslog (ini.SectionOf Sample.cfg_auth "log.syslog")
                                      Logfmt |}] ∧
  loggersToReload Sample.second_load.2 = [Sample.file1] ∧
  ini.KeyString (ini.SectionOf Sample.cfg "log") "filters" = "" ∧
  filters Sample.second_load.2 !! "auth" = Some level.AllowError.
Proof. repeat split; vm_compute; reflexivity. Qed.

(* ================================================================== *)
(** ** Level names and filter strings: proofs *)

Lemma logLevels_documented (name : string) :
  logLevels !! name = documented name.
Proof.
  unfold logLevels, documented; simpl.
  repeat (rewrite lookup_insert; case_decide; subst; [reflexivity|]).
  rewrite lookup_empty.
  repeat (case_decide; [congruence|]). reflexivity.
Qed.

Lemma getLogLevelFromString_known (name : string) (o : level.Option) :
  documented name = Some o → getLogLevelFromString name = (o, []).
Proof.
  intros H. unfold getLogLevelFromString. by rewrite logLevels_documented, H.
Qed.

Lemma getLogLevelFromString_unknown (name : string) :
  documented name = None →
  getLogLevelFromString name = (level.AllowError, [unknown_level name]).
Proof.
  intros H. unfold getLogLevelFromString. by rewrite logLevels_documented, H.
Qed.

Lemma Split_nonempty (s : string) (c : ascii) : Strings.Split s c ≠ [].
Proof.
  destruct s as [|d r]; simpl; [done|].
  destruct (Ascii.eqb d c); [done|]. by destruct (Strings.Split r c).
Qed.

Lemma Split_length (s : string) (c : ascii) :
  (1 <? length (Strings.Split s c))%nat = Strings.contains s c.
Proof.
  induction s as [|d r IH]; simpl; [done|].
  destruct (Ascii.eqb d c); simpl.
  - pose proof (Split_nonempty r c). by destruct (Strings.Split r c).
  - rewrite <- IH. pose proof (Split_nonempty r c).
    by destruct (Strings.Split r c).
Qed.

Lemma Split_first (s : string) (c : ascii) :
  nth 0 (Strings.Split s c) "" = before c s.
Proof.
  induction s as [|d r IH]; simpl; [done|].
  destruct (Ascii.eqb d c); simpl; [done|].
  destruct (Strings.Split r c) as [|p ps]; simpl in *; by rewrite <- IH.
Qed.

Lemma Split_second (s : string) (c : ascii) :
  Strings.contains s c = true →
  nth 1 (Strings.Split s c) "" = before c (after c s).
Proof.
  induction s as [|d r IH]; simpl; [done|].
  destruct (Ascii.eqb d c); simpl.
  - intros _. apply Split_first.
  - intros H. specialize (IH H). rewrite <- IH.
    pose proof (Split_length r c) as Hl. rewrite H in Hl.
    destruct (Strings.Split r c) as [|p [|q ps]]; simpl in *; done.
Qed.

(** A string that has a [c] is the text before the first one, the [c]
    and the text after it; the text before has none. *)
Lemma before_after (s : string) (c : ascii) :
  Strings.contains s c = true →
  s = before c s +:+ String c (after c s) ∧
  Strings.contains (before c s) c = false.
Proof.
  induction s as [|d r IH]; simpl; [done|].
  destruct (Ascii.eqb d c) eqn:Hd; simpl.
  - intros _. apply Ascii.eqb_eq in Hd as ->. done.
  - intros H. destruct (IH H) as [Hs Hb]. split.
    + rewrite Hs at 1. reflexivity.
    + simpl. by rewrite Hd, Hb.
Qed.

(** One turn of the loop, in the words of the specification. *)
Lemma getFilters_step_entry acc (s : string) :
  getFilters_step acc s =
  (match entry s with
   | Some (k, o) => <[k := o]> acc.1
   | None => acc.1
   end,
   acc.2 ++ entry_out s).
Proof.
  unfold getFilters_step, entry, entry_out.
  rewrite Split_length.
  destruct (Strings.contains s ":") eqn:Hc.
  - rewrite Split_first, Split_second by done.
    by destruct (getLogLevelFromString _).
  - rewrite app_nil_r. by destruct acc.
Qed.

Lemma getFilters_snoc (l : list string) (s : string) :
  getFilters (l ++ [s]) = getFilters_step (getFilters l) s.
Proof. unfold getFilters. by rewrite fold_left_app. Qed.

(** The table is the list of entries, a later one overwriting an
    earlier one of the same name. *)
Lemma getFilters_entries (l : list string) :
  (getFilters l).1 = list_to_map (reverse (omap entry l)) ∧
  (getFilters l).2 = flat_map entry_out l.
Proof.
  induction l as [|s l [IH1 IH2]] using rev_ind; [done|].
  rewrite getFilters_snoc, getFilters_step_entry; simpl.
  rewrite IH1, IH2, omap_app, reverse_app, flat_map_app; simpl.
  rewrite app_nil_r. split; [|done].
  by destruct (entry s) as [[k o]|].
Qed.

Lemma entry_names (l : list string) :
  (omap entry l).*1 =
  map (before ":") (filter (λ s, Strings.contains s ":" = true) l).
Proof.
  induction l as [|s l IH]; [done|].
  destruct (Strings.contains s ":") eqn:Hc.
  - rewrite filter_cons_True by done. simpl. unfold entry at 1.
    rewrite Hc. simpl. by rewrite <- IH.
  - rewrite filter_cons_False by (by rewrite Hc). simpl. unfold entry at 1.
    by rewrite Hc.
Qed.

Lemma entry_name_elem (l : list string) (k : string) :
  k ∈ (omap entry l).*1 ↔
  ∃ s, s ∈ l ∧ Strings.contains s ":" = true ∧ before ":" s = k.
Proof.
  rewrite entry_names, list_elem_of_fmap. split.
  - intros (s & -> & Hs). apply list_elem_of_filter in Hs as [Hc Hs]. eauto.
  - intros (s & Hs & Hc & <-). exists s. split; [done|].
    by apply list_elem_of_filter.
Qed.

(** The number of entries of a table made from a list is the number of
    distinct names of the list. *)
Lemma size_list_to_map_names (l : list (string * level.Option)) :
  size (list_to_map (reverse l) : gmap string level.Option) =
  length (remove_dups l.*1).
Proof.
  rewrite <- (size_dom (D := gset string)), dom_list_to_map_L.
  rewrite fmap_reverse, reverse_Permutation.
  rewrite <- (size_list_to_set (C := gset string) (remove_dups l.*1))
    by apply NoDup_remove_dups.
  f_equal. apply set_eq. intros x.
  by rewrite !elem_of_list_to_set, elem_of_remove_dups.
Qed.

(** [C6]  [getFilters] gives the table one entry for every name carried
    by a string that has a [':'] (the text before its first [':']), and
    nothing for a string without one: a name has an entry exactly when
    such a string carries it, the entry holds the level resolved from
    the text after that [':'] by the last string of that name, and
    there are as many entries as distinct names, hence as many as
    strings with a [':'] only when their names differ.  A level name
    that is not known still gives its entry, with the error level of
    the fallback, and the one diagnostic of that path is written. *)
Theorem getFilters_one_entry_per_string (l : list string) :
  (∀ k, is_Some ((getFilters l).1 !! k) ↔
        ∃ s, s ∈ l ∧ Strings.contains s ":" = true ∧ before ":" s = k) ∧
  (∀ pre s post,
     l = pre ++ s :: post →
     Strings.contains s ":" = true →
     Forall (λ t, Strings.contains t ":" = true →
                  before ":" t ≠ before ":" s) post →
     (getFilters l).1 !! before ":" s =
       Some (getLogLevelFromString (before ":" (after ":" s))).1) ∧
  (NoDup (map (before ":") (filter (λ s, Strings.contains s ":" = true) l)) →
   size (getFilters l).1 =
     length (filter (λ s, Strings.contains s ":" = true) l)) ∧
  size (getFilters l).1 = length (remove_dups (names l)) ∧
  (getFilters l).2 = flat_map entry_out l ∧
  (∀ s, Strings.contains s ":" = false → entry s = None ∧ entry_out s = []) ∧
  (∀ s, Strings.contains s ":" = true →
        documented (before ":" (after ":" s)) = None →
        entry s = Some (before ":" s, level.AllowError) ∧
        entry_out s = [unknown_level (before ":" (after ":" s))]).
Proof.
  destruct (getFilters_entries l) as [-> ->].
  split; [|split; [|split; [|split; [|split; [done|split]]]]].
  - intros k. rewrite <- entry_name_elem, <- not_eq_None_Some.
    rewrite <- not_elem_of_list_to_map, fmap_reverse, elem_of_reverse.
    split; [apply dec_stable|tauto].
  - intros pre s post -> Hc Hpost.
    rewrite omap_app; simpl. unfold entry at 2. rewrite Hc.
    rewrite reverse_app, reverse_cons, <- app_assoc, list_to_map_app.
    rewrite lookup_union_r; [simpl; apply lookup_insert_eq|].
    apply not_elem_of_list_to_map.
    rewrite fmap_reverse, elem_of_reverse, entry_name_elem.
    intros (t & Ht & Hct & Heq).
    rewrite Forall_forall in Hpost. by apply (Hpost t Ht Hct).
  - intros Hnd. rewrite map_size_list_to_map.
    + by rewrite length_reverse, <- (length_fmap fst), entry_names, length_map.
    + by rewrite fmap_reverse, reverse_Permutation, entry_names.
  - by rewrite size_list_to_map_names, entry_names.
  - intros s Hc. unfold entry, entry_out. by rewrite Hc.
  - intros s Hc Hd. unfold entry, entry_out.
    by rewrite Hc, getLogLevelFromString_unknown.
Qed.

Lemma getFilters_one_entry_per_string_witness :
  (getFilters ["a:warn"; "b:bogus"; "c"]).1 !! "b" = Some level.AllowError ∧
  size (getFilters ["a:warn"; "b:bogus"; "c"]).1 = 2.
Proof.
  split.
  - apply (proj1 (proj2 (getFilters_one_entry_per_string ["a:warn"; "b:bogus"; "c"]))
             ["a:warn"] "b:bogus" ["c"]).
    + reflexivity.
    + reflexivity.
    + repeat constructor. simpl. discriminate.
  - apply (proj1 (proj2 (proj2
             (getFilters_one_entry_per_string ["a:warn"; "b:bogus"; "c"])))).
    vm_compute. repeat constructor; rewrite ?list_elem_of_In; simpl; intuition discriminate.
Defined.

(** Against [C6] as it is worded: two strings have a [':'] and carry
    the same name; the table has one entry, not two, and it holds the
    level of the second string. *)
Lemma repeated_name_single_entry :
  length (filter (λ s, Strings.contains s ":" = true) ["a:warn"; "a:error"]) = 2 ∧
  size (getFilters ["a:warn"; "a:error"]).1 = 1 ∧
  (getFilters ["a:warn"; "a:error"]).1 !! "a" = Some level.AllowError.
Proof. repeat split; vm_compute; reflexivity. Qed.

Lemma same_letter_lower (c d : ascii) :
  same_letter c d = true →
  (97 ≤ Strings.code d)%nat → (Strings.code d ≤ 122)%nat →
  (Strings.code c <? 128)%nat = true ∧ Strings.lower c = d.
Proof.
  unfold same_letter, Strings.lower, Strings.code. intros H Hd1 Hd2.
  apply orb_true_iff in H as [H|H].
  - apply Ascii.eqb_eq in H as ->. split; [apply Nat.ltb_lt; lia|].
    destruct (65 <=? nat_of_ascii d)%nat eqn:H1;
      destruct (nat_of_ascii d <=? 90)%nat eqn:H2; simpl; try reflexivity.
    apply Nat.leb_le in H2. lia.
  - apply andb_true_iff in H as [_ H]. apply Nat.eqb_eq in H.
    split; [apply Nat.ltb_lt; lia|].
    replace (65 <=? nat_of_ascii c)%nat with true
      by (symmetry; apply Nat.leb_le; lia).
    replace (nat_of_ascii c <=? 90)%nat with true
      by (symmetry; apply Nat.leb_le; lia).
    simpl. rewrite H. apply ascii_nat_embedding.
Qed.

(** Lowering a name written in another letter case gives the name. *)
Lemma case_variant_ToLower (u : string → string) (name n : string) :
  case_variant name n = true → lower_letters n = true →
  Strings.ToLower u name = n.
Proof.
  intros Hv Hn.
  assert (Strings.is_ascii name = true ∧ Strings.map_lower name = n) as [Ha Hl].
  { revert n Hv Hn. induction name as [|c r IH]; intros [|d t] Hv Hn;
      cbn [case_variant lower_letters Strings.is_ascii Strings.map_lower] in *;
      try done.
    apply andb_true_iff in Hv as [Hc Hv].
    apply andb_true_iff in Hn as [Hd Hn].
    apply andb_true_iff in Hd as [Hd1 Hd2].
    apply Nat.leb_le in Hd1, Hd2.
    destruct (same_letter_lower c d Hc Hd1 Hd2) as [-> ->].
    destruct (IH t Hv Hn) as [-> ->]. done. }
  unfold Strings.ToLower. by rewrite Ha.
Qed.

Lemma documented_lower_letters (n : string) (o : level.Option) :
  documented n = Some o → lower_letters n = true.
Proof.
  unfold documented. intros H.
  repeat (case_decide; [subst; reflexivity|]). discriminate.
Qed.

(** [C7]  The level of a configuration section is resolved whatever the
    case of its letters, since [getLogLevelFromConfig] puts the name in
    lower case first: a severity name written in any letter case gives
    the name in lower case with the documented option (trace as debug,
    critical as error) and no diagnostic; a name that is no severity
    name once in lower case gives the error level and one diagnostic.
    The name is the one the section, or the nearest section it is a
    child of, gives for [level], or the default.
    [getLogLevelFromString] itself looks the name up as it is: it gives
    the documented option for the names in lower case, and the error
    level with one diagnostic for every other name. *)
Theorem level_resolution (E : Env) :
  (∀ key defaultName cfg n o,
     documented n = Some o →
     case_variant (ini.MustString (ini.SectionOf cfg key) "level" defaultName) n
       = true →
     getLogLevelFromConfig E key defaultName cfg = (n, o, [])) ∧
  (∀ key defaultName cfg o,
     documented (Strings.ToLower (unicode_ToLower E)
       (ini.MustString (ini.SectionOf cfg key) "level" defaultName)) = Some o →
     getLogLevelFromConfig E key defaultName cfg =
       (Strings.ToLower (unicode_ToLower E)
          (ini.MustString (ini.SectionOf cfg key) "level" defaultName), o, [])) ∧
  (∀ key defaultName cfg,
     documented (Strings.ToLower (unicode_ToLower E)
       (ini.MustString (ini.SectionOf cfg key) "level" defaultName)) = None →
     getLogLevelFromConfig E key defaultName cfg =
       (Strings.ToLower (unicode_ToLower E)
          (ini.MustString (ini.SectionOf cfg key) "level" defaultName),
        level.AllowError,
        [unknown_level (Strings.ToLower (unicode_ToLower E)
           (ini.MustString (ini.SectionOf cfg key) "level" defaultName))])) ∧
  (∀ name o, documented name = Some o → getLogLevelFromString name = (o, [])) ∧
  (∀ name, documented name = None →
           getLogLevelFromString name = (level.AllowError, [unknown_level name])).
Proof.
  split; [|split; [|split; [|split]]].
  - intros key d cfg n o Hn Hv. unfold getLogLevelFromConfig.
    rewrite (case_variant_ToLower _ _ n Hv (documented_lower_letters n o Hn)).
    by rewrite (getLogLevelFromString_known _ o Hn).
  - intros key d cfg o H. unfold getLogLevelFromConfig.
    by rewrite (getLogLevelFromString_known _ o H).
  - intros key d cfg H. unfold getLogLevelFromConfig.
    by rewrite (getLogLevelFromString_unknown _ H).
  - apply getLogLevelFromString_known.
  - apply getLogLevelFromString_unknown.
Qed.

(** The section [log] writes its level [WaRn]; the section [log.file],
    which is not in the file, reads it from there. *)
Lemma level_resolution_witness :
  getLogLevelFromConfig (Sample.env Sample.never Sample.never)
      "log.file" "info" Sample.cfg_mixed_case
    = ("warn", level.AllowWarn, []) ∧
  getLogLevelFromConfig (Sample.env Sample.never Sample.never)
      "log" "info" Sample.cfg_mixed_case
    = ("warn", level.AllowWarn, []) ∧
  getLogLevelFromConfig (Sample.env Sample.never Sample.never)
      "syslog" "Verbose" Sample.cfg_mixed_case
    = ("verbose", level.AllowError, [unknown_level "verbose"]) ∧
  getLogLevelFromString "critical" = (level.AllowError, []) ∧
  getLogLevelFromString "verbose" = (level.AllowError, [unknown_level "verbose"]).
Proof.
  split; [|split; [|split; [|split]]].
  - apply (proj1 (level_resolution (Sample.env Sample.never Sample.never))
             "log.file" "info" Sample.cfg_mixed_case "warn" level.AllowWarn).
    + reflexivity.
    + reflexivity.
  - apply (proj1 (proj2 (level_resolution (Sample.env Sample.never Sample.never)))
             "log" "info" Sample.cfg_mixed_case level.AllowWarn).
    reflexivity.
  - apply (proj1 (proj2 (proj2
             (level_resolution (Sample.env Sample.never Sample.never))))
             "syslog" "Verbose" Sample.cfg_mixed_case).
    reflexivity.
  - apply (proj1 (proj2 (proj2 (proj2
             (level_resolution (Sample.env Sample.never Sample.never)))))
             "critical" level.AllowError).
    reflexivity.
  - apply (proj2 (proj2 (proj2 (proj2
             (level_resolution (Sample.env Sample.never Sample.never)))))
             "verbose").
    reflexivity.
Defined.

(** Against [C7] as it is worded: DEBUG is a severity name in upper
    case, and [getLogLevelFromString] answers the error level with the
    diagnostic; so does the filter parser, which calls it on the text as
    it stands. *)
Lemma upper_case_level_not_resolved :
  case_variant "DEBUG" "debug" = true ∧
  documented "debug" = Some level.AllowDebug ∧
  getLogLevelFromString "DEBUG" = (level.AllowError, [unknown_level "DEBUG"]) ∧
  (getFilters ["auth:DEBUG"]).1 !! "auth" = Some level.AllowError ∧
  (getFilters ["auth:DEBUG"]).2 = [unknown_level "DEBUG"].
Proof. repeat split; vm_compute; reflexivity. Qed.

(** [C5]  The table of a mode is its own table [M] with every entry of
    the default table [D] whose name [M] lacks: an entry of [M] wins
    over the default of the same name.  Folded into the global table
    [G], it adds only the names [G] lacks: an entry that is already
    there, from an earlier mode, stays.  This is what a turn of the
    loader does with the tables of its mode. *)
Theorem filters_merge (D M G : gmap string level.Option) :
  range_copy_absent D M = M ∪ D ∧
  (∀ k, range_copy_absent D M !! k =
        match M !! k with Some v => Some v | None => D !! k end) ∧
  range_copy_absent (range_copy_absent D M) G = G ∪ (M ∪ D) ∧
  (∀ k, range_copy_absent (range_copy_absent D M) G !! k =
        match G !! k with
        | Some v => Some v
        | None => range_copy_absent D M !! k
        end) ∧
  (∀ E logsPath cfg dl mode st st',
     ReadLoggingConfig_mode E logsPath cfg dl D mode st = Continue st' →
     ∃ sec,
       ini.GetSection cfg ("log." +:+ Strings.TrimSpace mode) = inl sec ∧
       LogWithFilters.filters <$> last (loggers (Root st')) =
         Some (range_copy_absent D
                 (getFilters (SplitString E (ini.KeyString sec "filters"))).1) ∧
       filters st' =
         range_copy_absent
           (range_copy_absent D
              (getFilters (SplitString E (ini.KeyString sec "filters"))).1)
           (filters st)).
Proof.
  rewrite !range_copy_absent_union.
  split; [done|]. split; [intros k; apply lookup_union_match|].
  split; [done|]. split; [intros k; apply lookup_union_match|].
  intros E logsPath cfg dl mode st st' H.
  apply mode_Continue in H as (keys & h & Hsec & _ & _ & HR & Hf & _).
  exists (ini.SectionOf cfg ("log." +:+ Strings.TrimSpace mode)).
  unfold ini.GetSection. rewrite Hsec.
  rewrite !range_copy_absent_union, HR, Hf, last_snoc. done.
Qed.

(** Defaults [x:warn z:info], console [y:error z:debug], then file
    [z:error]: each mode keeps its own [z], the global table keeps the
    first one. *)
Lemma filters_merge_witness :
  map LogWithFilters.filters
      (loggers (Root (ReadLoggingConfig (Sample.env Sample.never Sample.never)
         ["console"; "file"] "/var/log/grafana" Sample.cfg_filters init).2))
    = [ {[ "x" := level.AllowWarn; "y" := level.AllowError;
           "z" := level.AllowDebug ]};
        {[ "x" := level.AllowWarn; "z" := level.AllowError ]} ] ∧
  filters (ReadLoggingConfig (Sample.env Sample.never Sample.never)
         ["console"; "file"] "/var/log/grafana" Sample.cfg_filters init).2
    = {[ "x" := level.AllowWarn; "y" := level.AllowError;
         "z" := level.AllowDebug ]} ∧
  ∃ sec,
    ini.GetSection Sample.cfg_filters ("log." +:+ Strings.TrimSpace "console")
      = inl sec ∧
    filters (ReadLoggingConfig_range (Sample.env Sample.never Sample.never)
               "/var/log/grafana" Sample.cfg_filters "info"
               {[ "x" := level.AllowWarn; "z" := level.AllowInfo ]}
               ["console"] init).2 =
      range_copy_absent
        (range_copy_absent {[ "x" := level.AllowWarn; "z" := level.AllowInfo ]}
           (getFilters (SplitString (Sample.env Sample.never Sample.never)
                          (ini.KeyString sec "filters"))).1)
        (filters init).
Proof.
  split; [vm_compute; reflexivity|]. split; [vm_compute; reflexivity|].
  destruct (proj2 (proj2 (proj2 (proj2
              (filters_merge {[ "x" := level.AllowWarn; "z" := level.AllowInfo ]} ∅ ∅))))
              (Sample.env Sample.never Sample.never) "/var/log/grafana"
              Sample.cfg_filters "info" "console" init
              (ReadLoggingConfig_range (Sample.env Sample.never Sample.never)
                 "/var/log/grafana" Sample.cfg_filters "info"
                 {[ "x" := level.AllowWarn; "z" := level.AllowInfo ]}
                 ["console"] init).2)
    as (sec & Hsec & _ & Hf).
  - vm_compute. reflexivity.
  - exists sec. split; [exact Hsec|exact Hf].
Defined.

(** The logger made before the reload still writes an info record to
    the console handler it was bound to, at the level of that sink; a
    logger made after the reload is bound to the error level on the sink
    the reload has added. *)
Example stale_logger_after_reload :
  map (λ b, bound_min (LogWithFilters.val b)) (loggers Sample.auth_logger)
    = [Some level.AllowInfo] ∧
  filters Sample.after_reload !! "auth" = Some level.AllowError ∧
  map fst (Info Sample.auth_logger "login" []) = [Sample.console0] ∧
  map (λ b, bound_min (LogWithFilters.val b))
      (loggers (New "auth" [] Sample.after_reload))
    = [Some level.AllowInfo; Some level.AllowError] ∧
  map (λ w, sid w.1) (Info (New "auth" [] Sample.after_reload) "login" []) = [0].
Proof. repeat split; vm_compute; reflexivity. Qed.

(* ================================================================== *)
(** ** Further properties: colours and dispatch *)

Lemma terminalColorFn_skip (pre : list (kval * kval)) (rest : list kval) :
  Forall (λ p, kval_is_str p.1 "level" = false) pre →
  terminalColorFn (flat pre ++ rest) = terminalColorFn rest.
Proof.
  induction 1 as [|[k v] pre Hk _ IH]; [done|].
  simpl in *. by rewrite Hk.
Qed.

(** [X1]  [terminalColorFn] reads its arguments two by two: the first
    pair whose key is the level key decides, whatever follows it; with
    no such pair the result colours nothing, and a last key without a
    value is not looked at, be it the level key. *)
Theorem terminalColorFn_first_level_pair
    (pre : list (kval * kval)) (v : kval) (rest : list kval) :
  Forall (λ p, kval_is_str p.1 "level" = false) pre →
  terminalColorFn (flat pre ++ level_Key :: v :: rest)
    = terminalColorFn [level_Key; v] ∧
  terminalColorFn (flat pre) = no_colour ∧
  terminalColorFn (flat pre ++ [level_Key]) = no_colour.
Proof.
  intros Hpre. split; [|split].
  - rewrite terminalColorFn_skip by done. simpl. by destruct v.
  - rewrite <- (app_nil_r (flat pre)). by rewrite terminalColorFn_skip.
  - by rewrite terminalColorFn_skip.
Qed.

Lemma terminalColorFn_first_level_pair_witness :
  terminalColorFn
    (flat [(KStr "logger", KStr "level"); (KStr "msg", KStr "warn")]
     ++ level_Key :: KStr "error" :: [level_Key; KStr "info"])
    = terminalColorFn [level_Key; KStr "error"].
Proof.
  apply (terminalColorFn_first_level_pair
           [(KStr "logger", KStr "level"); (KStr "msg", KStr "warn")]
           (KStr "error") [level_Key; KStr "info"]).
  repeat constructor.
Defined.

Lemma dispatch_plain
    (ml : MultiLoggers) (v : level.Value) (msg : string) (args : list kval) :
  plain ml →
  dispatch v ml msg args =
  map (λ b, (sink_of (LogWithFilters.val b), event v msg args)) (loggers ml).
Proof.
  unfold plain, dispatch. induction 1 as [|b l Hb _ IH]; [done|].
  simpl. rewrite IH, Hb. reflexivity.
Qed.

Lemma New_dispatch
    (st : State) (logger : string) (ctx : list kval)
    (v : level.Value) (msg : string) (args : list kval) :
  plain (Root st) →
  dispatch v (New logger ctx st) msg args =
  map (λ b, (sink_of (LogWithFilters.val b),
             KSlice (KStr "logger" :: KStr logger :: ctx) :: KMissing
               :: (event v msg args ++ [KMissing])))
      (filter (λ b, level.allows (bound logger b) v = true)
              (loggers (Root st))).
Proof.
  intros Hp. unfold dispatch. rewrite New_loggers.
  unfold plain in Hp. induction Hp as [|b l Hb _ IH]; [done|].
  simpl. rewrite IH. fold (bound logger b).
  destruct (level.allows (bound logger b) v) eqn:Ha.
  - rewrite filter_cons_True by done. rewrite Hb. reflexivity.
  - rewrite filter_cons_False by (by rewrite Ha). reflexivity.
Qed.

Lemma allows_monotone (o : level.Option) (v v' : level.Value) :
  (rank v ≤ rank v')%nat → level.allows o v = true → level.allows o v' = true.
Proof. destruct o, v, v'; simpl; done || lia. Qed.

Lemma plain_first_load : plain (Root Sample.first_load.2).
Proof. vm_compute. repeat constructor. Qed.

(** [X2]  Logging through a [MultiLoggers] value whose loggers are bare
    handlers, as [Root] itself is, filters nothing: at every level each
    handler gets the record once, in the order of the list, whatever its
    [maxLevel] and its filter table say. *)
Theorem dispatch_plain_unfiltered
    (ml : MultiLoggers) (v : level.Value) (msg : string) (args : list kval) :
  plain ml →
  dispatch v ml msg args =
    map (λ b, (sink_of (LogWithFilters.val b), event v msg args)) (loggers ml) ∧
  map fst (dispatch v ml msg args) =
    map (λ b, sink_of (LogWithFilters.val b)) (loggers ml).
Proof.
  intros Hp. rewrite dispatch_plain by done. split; [done|].
  by rewrite map_map.
Qed.

(** The console sink of the first load is bound to info, yet a debug
    record sent through [Root] reaches it, as it reaches the others. *)
Lemma dispatch_plain_unfiltered_witness :
  map fst (Debug (Root Sample.first_load.2) "probe" []) =
  map (λ b, sink_of (LogWithFilters.val b)) (loggers (Root Sample.first_load.2)).
Proof.
  apply (dispatch_plain_unfiltered (Root Sample.first_load.2)
           level.DebugValue "probe" []).
  exact plain_first_load.
Defined.

(** [X3]  A logger made by [New] over bare handlers hands each call to
    exactly the sinks whose bound minimum lets the level through, once
    each and in the order of [Root.loggers], with the logger name put in
    front of the record and the record made even at its end. *)
Theorem New_dispatch_plain
    (st : State) (logger : string) (ctx : list kval)
    (v : level.Value) (msg : string) (args : list kval) :
  plain (Root st) →
  dispatch v (New logger ctx st) msg args =
  map (λ b, (sink_of (LogWithFilters.val b),
             KSlice (KStr "logger" :: KStr logger :: ctx) :: KMissing
               :: (event v msg args ++ [KMissing])))
      (filter (λ b, level.allows (bound logger b) v = true)
              (loggers (Root st))) ∧
  (length (dispatch v (New logger ctx st) msg args)
     ≤ length (loggers (Root st)))%nat.
Proof.
  intros Hp. rewrite New_dispatch by done. split; [done|].
  rewrite length_map. apply length_filter.
Qed.

Lemma New_dispatch_plain_witness :
  (length (Debug (New "auth" [] Sample.first_load.2) "probe" [])
     ≤ length (loggers (Root Sample.first_load.2)))%nat.
Proof.
  apply (New_dispatch_plain Sample.first_load.2 "auth" []
           level.DebugValue "probe" []).
  exact plain_first_load.
Defined.

(** [X4]  Over bare handlers a logger made by [New] never drops an
    error record: [Error] reaches every sink of [Root.loggers], in
    order.  And a sink that gets a record at one level gets it at every
    higher level. *)
Theorem New_error_reaches_all
    (st : State) (logger : string) (ctx : list kval)
    (msg : string) (args : list kval) :
  plain (Root st) →
  map fst (Error (New logger ctx st) msg args) =
    map (λ b, sink_of (LogWithFilters.val b)) (loggers (Root st)) ∧
  (∀ v v' h, (rank v ≤ rank v')%nat →
     h ∈ map fst (dispatch v (New logger ctx st) msg args) →
     h ∈ map fst (dispatch v' (New logger ctx st) msg args)).
Proof.
  intros Hp. split.
  - unfold Error. rewrite New_dispatch by done. rewrite map_map. simpl.
    f_equal. clear Hp. induction (loggers (Root st)) as [|b l IH]; [done|].
    rewrite filter_cons_True; [by rewrite IH|].
    by destruct (bound logger b).
  - intros v v' h Hr. rewrite !New_dispatch by done. rewrite !map_map; simpl.
    rewrite !list_elem_of_fmap. intros (b & -> & Hb). exists b. split; [done|].
    apply list_elem_of_filter in Hb as [Ha Hb]. apply list_elem_of_filter.
    split; [|done]. by apply allows_monotone with v.
Qed.

Lemma New_error_reaches_all_witness :
  map fst (Error (New "auth" [] Sample.first_load.2) "down" []) =
  map (λ b, sink_of (LogWithFilters.val b)) (loggers (Root Sample.first_load.2)).
Proof.
  apply (New_error_reaches_all Sample.first_load.2 "auth" [] "down" []).
  exact plain_first_load.
Defined.

(** [X5]  No record sent by the dispatch methods is coloured: the level
    they put in the record is a level value, not one of the strings
    [terminalColorFn] compares with.  This holds through [Root] and
    through a logger made by [New], over bare handlers. *)
Theorem dispatched_records_uncoloured
    (st : State) (logger : string) (ctx : list kval)
    (v : level.Value) (msg : string) (args : list kval) :
  plain (Root st) →
  Forall (λ w, terminalColorFn w.2 = no_colour) (dispatch v (Root st) msg args) ∧
  Forall (λ w, terminalColorFn w.2 = no_colour)
         (dispatch v (New logger ctx st) msg args).
Proof.
  intros Hp. rewrite dispatch_plain, New_dispatch by done.
  split; apply Forall_forall; intros w Hw;
    apply list_elem_of_fmap in Hw as (b & -> & _); reflexivity.
Qed.

Lemma dispatched_records_uncoloured_witness :
  Forall (λ w, terminalColorFn w.2 = no_colour)
         (Error (New "auth" [] Sample.first_load.2) "down" []).
Proof.
  apply (dispatched_records_uncoloured Sample.first_load.2 "auth" []
           level.ErrorValue "down" []).
  exact plain_first_load.
Defined.

(* ================================================================== *)
(** ** Further properties: the loader *)

Section LoaderTrace.
Variable E : Env.

(** Everything the loop over the modes does to the registry, whatever
    way it ends: [news] are the handlers it has appended. *)
Lemma range_trace logsPath cfg dl df modes st :
  ∃ news,
    loggers (Root (ReadLoggingConfig_range E logsPath cfg dl df modes st).2)
      = loggers (Root st) ++ news ∧
    Forall (λ b, LogWithFilters.val b = Handler (sink_of (LogWithFilters.val b)))
           news ∧
    map (λ b, mode_of (backend (sink_of (LogWithFilters.val b)))) news
      `prefix_of` map Strings.TrimSpace modes ∧
    ((ReadLoggingConfig_range E logsPath cfg dl df modes st).1 = Return None →
     length news = length modes) ∧
    ((ReadLoggingConfig_range E logsPath cfg dl df modes st).1 ≠ Return None →
     (length news < length modes)%nat) ∧
    loggersToClose (ReadLoggingConfig_range E logsPath cfg dl df modes st).2
      = loggersToClose st ++
        filter (λ h, mode_of (backend h) ≠ "console")
               (map (λ b, sink_of (LogWithFilters.val b)) news) ∧
    loggersToReload (ReadLoggingConfig_range E logsPath cfg dl df modes st).2
      = loggersToReload st ++
        filter (λ h, mode_of (backend h) = "file")
               (map (λ b, sink_of (LogWithFilters.val b)) news) ∧
    (∀ k v, filters st !! k = Some v →
            filters (ReadLoggingConfig_range E logsPath cfg dl df modes st).2 !! k
              = Some v) ∧
    Forall (λ b, dom df ⊆ dom (LogWithFilters.filters b) ∧
                 dom (LogWithFilters.filters b) ⊆
                   dom (filters (ReadLoggingConfig_range E logsPath cfg dl df modes st).2))
           news.
Proof.
  revert st. induction modes as [|mode modes IH]; intros st; simpl.
  - exists []. rewrite !app_nil_r. simpl.
    repeat split; try done; try apply prefix_nil.
  - destruct (ReadLoggingConfig_mode _ _ _ _ _ _ _) as [st1|r st1] eqn:Hm.
    + apply mode_Continue in Hm
        as (sec & h & _ & _ & Hmode & HR & Hf & Hc & Hr & _ & _).
      destruct (IH st1) as (news & HR' & Hpl & Hpre & Hok & Hko & Hc' & Hr' & Hf' & Hdom).
      set (M := (getFilters (SplitString E (ini.KeyString
                   (ini.SectionOf cfg ("log." +:+ Strings.TrimSpace mode))
                   "filters"))).1) in *.
      set (b := {| LogWithFilters.val := Handler h;
                   LogWithFilters.filters := M ∪ df;
                   LogWithFilters.maxLevel :=
                     (getLogLevelFromConfig E
                        ("log." +:+ Strings.TrimSpace mode) dl cfg).1.2 |}) in *.
      exists (b :: news).
      rewrite HR', HR, Hc', Hc, Hr', Hr, <- !app_assoc. simpl.
      split; [done|]. split; [by constructor|].
      split; [rewrite Hmode; by apply prefix_cons|].
      split; [intros H; by rewrite Hok|].
      split; [intros H; specialize (Hko H); lia|].
      split; [|split; [|split]].
      * rewrite filter_cons, Hmode. by repeat case_decide.
      * rewrite filter_cons, Hmode. by repeat case_decide.
      * intros k v Hk. apply Hf'. rewrite Hf. by apply lookup_union_Some_l.
      * constructor; [|done]. simpl. split.
        -- rewrite dom_union_L. set_solver.
        -- intros k Hk. apply elem_of_dom in Hk as [v Hv].
           apply elem_of_dom.
           destruct (filters st !! k) as [w|] eqn:Hw.
           ++ exists w. apply Hf'. rewrite Hf. by apply lookup_union_Some_l.
           ++ exists v. apply Hf'. rewrite Hf. by rewrite lookup_union_r.
    + apply mode_Leave in Hm as (Hne & HR & Hf & Hc & Hr & _).
      exists []. simpl. rewrite !app_nil_r, HR, Hf, Hc, Hr.
      repeat split; try done; try (simpl; lia); try apply prefix_nil.
Qed.

End LoaderTrace.

Section LoadTrace.
Variable E : Env.

(** The same for a whole load, which closes first. *)
Lemma ReadLoggingConfig_trace modes logsPath cfg st :
  loggers (Root (ReadLoggingConfig E modes logsPath cfg st).2)
    = loggers (Root st)
      ++ new_loggers st (ReadLoggingConfig E modes logsPath cfg st).2 ∧
  Forall (λ b, LogWithFilters.val b = Handler (sink_of (LogWithFilters.val b)))
         (new_loggers st (ReadLoggingConfig E modes logsPath cfg st).2) ∧
  map (λ h, mode_of (backend h))
      (new_sinks st (ReadLoggingConfig E modes logsPath cfg st).2)
    `prefix_of` map Strings.TrimSpace modes ∧
  ((ReadLoggingConfig E modes logsPath cfg st).1 = Return None →
   map (λ h, mode_of (backend h))
       (new_sinks st (ReadLoggingConfig E modes logsPath cfg st).2)
     = map Strings.TrimSpace modes) ∧
  ((Close E st).1 = None →
   (ReadLoggingConfig E modes logsPath cfg st).1 ≠ Return None →
   (length (new_sinks st (ReadLoggingConfig E modes logsPath cfg st).2)
      < length modes)%nat) ∧
  loggersToClose (ReadLoggingConfig E modes logsPath cfg st).2
    = filter (λ h, mode_of (backend h) ≠ "console")
             (new_sinks st (ReadLoggingConfig E modes logsPath cfg st).2) ∧
  loggersToReload (ReadLoggingConfig E modes logsPath cfg st).2
    = loggersToReload st ++
      filter (λ h, mode_of (backend h) = "file")
             (new_sinks st (ReadLoggingConfig E modes logsPath cfg st).2) ∧
  (∀ k v, filters st !! k = Some v →
          filters (ReadLoggingConfig E modes logsPath cfg st).2 !! k = Some v) ∧
  Forall (λ b, dom (default_filters E cfg) ⊆ dom (LogWithFilters.filters b) ∧
               dom (LogWithFilters.filters b) ⊆
                 dom (filters (ReadLoggingConfig E modes logsPath cfg st).2))
         (new_loggers st (ReadLoggingConfig E modes logsPath cfg st).2) ∧
  ∃ failed,
    calls (ReadLoggingConfig E modes logsPath cfg st).2
      = calls st ++ map CallClose (loggersToClose st) ++
        map CallInit
            (filter (λ h, mode_of (backend h) = "file")
                    (new_sinks st (ReadLoggingConfig E modes logsPath cfg st).2)
             ++ failed) ∧
    (length failed ≤ 1)%nat ∧
    Forall (λ h, Init E h ≠ None) failed ∧
    ((ReadLoggingConfig E modes logsPath cfg st).1 = Return None → failed = []).
Proof.
  unfold ReadLoggingConfig, new_sinks, new_loggers, default_filters.
  rewrite Close_spec.
  destruct (head (omap (handler_Close E) (loggersToClose st))) as [e|]; simpl.
  - rewrite drop_all. simpl. rewrite !filter_nil, !app_nil_r.
    split_and!; try done; try apply prefix_nil; try by constructor.
    exists []. rewrite app_nil_r.
    split; [done|]. split; [simpl; lia|]. split; [constructor|done].
  - destruct (getLogLevelFromConfig E "log" "info" cfg) as [[dl ?] out1].
    destruct (getFilters _) as [df out2]. simpl.
    match goal with
    | |- context [ReadLoggingConfig_range E logsPath cfg dl df modes ?s] =>
        set (st1 := s);
        destruct (range_trace E logsPath cfg dl df modes st1)
          as (news & HR & Hpl & Hpre & Hok & Hko & Hc & Hr & Hf & Hdom);
        destruct (ReadLoggingConfig_range E logsPath cfg dl df modes st1)
          as [r st2] eqn:Hrange
    end.
    apply range_calls in Hrange as (rl & failed & Hrl & Hcs & Hlen & Hfail & Hnil).
    simpl in *. rewrite Hr in Hrl. apply app_inv_head in Hrl as <-.
    rewrite HR, drop_app_length, map_map, Hc, Hr.
    split_and!; try done.
    + intros H. apply prefix_length_eq; [done|].
      rewrite !length_map. by rewrite (Hok H).
    + intros _ H. rewrite length_map. by apply Hko.
    + exists failed. rewrite Hcs, <- app_assoc. done.
Qed.

End LoadTrace.

(** [X6]  Whatever way a load ends, the handler calls it has made are
    the [Close] of every handler that was in [loggersToClose], once each
    and in order, then the [Init] of each file writer it has built, in
    order: the ones it has registered and, when the load stops there,
    the one whose [Init] failed.  A load never calls [Reload], it closes
    no other handler, and a load that fails has still closed the old
    handlers. *)
Theorem ReadLoggingConfig_closes_old_handlers
    (E : Env) (modes : list string) (logsPath : string) (cfg : ini.File)
    (st : State) :
  (∃ failed,
     calls (ReadLoggingConfig E modes logsPath cfg st).2
       = calls st ++ map CallClose (loggersToClose st) ++
         map CallInit
             (filter (λ h, mode_of (backend h) = "file")
                     (new_sinks st (ReadLoggingConfig E modes logsPath cfg st).2)
              ++ failed) ∧
     (length failed ≤ 1)%nat ∧
     Forall (λ h, Init E h ≠ None) failed ∧
     ((ReadLoggingConfig E modes logsPath cfg st).1 = Return None →
      failed = [])) ∧
  (∀ h, CallReload h ∈ calls (ReadLoggingConfig E modes logsPath cfg st).2 →
        CallReload h ∈ calls st) ∧
  (∀ h, CallClose h ∈ calls (ReadLoggingConfig E modes logsPath cfg st).2 →
        CallClose h ∈ calls st ∨ h ∈ loggersToClose st).
Proof.
  destruct (ReadLoggingConfig_trace E modes logsPath cfg st)
    as (_ & _ & _ & _ & _ & _ & _ & _ & _ & failed & Hc & Hlen & Hfail & Hnil).
  split; [by exists failed|]. rewrite Hc. split.
  - intros h. rewrite !elem_of_app, !list_elem_of_fmap.
    intros [H|[(x & Hx & _)|(x & Hx & _)]]; [done|discriminate..].
  - intros h. rewrite !elem_of_app, !list_elem_of_fmap.
    intros [H|[(x & Hx & Hin)|(x & Hx & _)]]; [by left| |discriminate].
    injection Hx as ->. by right.
Qed.

(** A load of the modes [file, file] over an open syslog handler:
    the old handler is closed, then each of the two writers gets
    [Init]. *)
Example two_file_load_calls :
  calls (ReadLoggingConfig (Sample.env Sample.never Sample.never)
           ["file"; "file"] "/var/log/grafana" Sample.cfg Sample.syslog_open).2
  = [CallClose Sample.syslog0;
     CallInit {| sid := 3; backend := File Sample.file_writer |};
     CallInit {| sid := 4; backend := File Sample.file_writer |}].
Proof. vm_compute. reflexivity. Qed.

(** [X7]  A load is not undone when it fails: whatever way it ends,
    [Root.loggers] is what it was followed by one bare handler for each
    mode the loop got through, in the order of the modes; all of them
    when it returns nil, fewer when the loop returns an error or panics;
    and the entries of the global filter table are kept. *)
Theorem ReadLoggingConfig_no_rollback
    (E : Env) (modes : list string) (logsPath : string) (cfg : ini.File)
    (st : State) :
  loggers (Root (ReadLoggingConfig E modes logsPath cfg st).2)
    = loggers (Root st)
      ++ new_loggers st (ReadLoggingConfig E modes logsPath cfg st).2 ∧
  map (λ h, mode_of (backend h))
      (new_sinks st (ReadLoggingConfig E modes logsPath cfg st).2)
    `prefix_of` map Strings.TrimSpace modes ∧
  ((ReadLoggingConfig E modes logsPath cfg st).1 = Return None →
   map (λ h, mode_of (backend h))
       (new_sinks st (ReadLoggingConfig E modes logsPath cfg st).2)
     = map Strings.TrimSpace modes) ∧
  ((Close E st).1 = None →
   (ReadLoggingConfig E modes logsPath cfg st).1 ≠ Return None →
   (length (new_sinks st (ReadLoggingConfig E modes logsPath cfg st).2)
      < length modes)%nat) ∧
  (∀ k v, filters st !! k = Some v →
          filters (ReadLoggingConfig E modes logsPath cfg st).2 !! k = Some v).
Proof.
  destruct (ReadLoggingConfig_trace E modes logsPath cfg st)
    as (H1 & _ & H3 & H4 & H5 & _ & _ & H8 & _).
  done.
Qed.

(** The mode [nosuch] has no section: the load returns an error and the
    console handler built before it stays in [Root]. *)
Lemma ReadLoggingConfig_no_rollback_witness :
  (length (new_sinks init
             (ReadLoggingConfig (Sample.env Sample.never Sample.never)
                ["console"; "nosuch"; "file"] "/var/log/grafana"
                Sample.cfg init).2) < 3)%nat ∧
  map (λ h, mode_of (backend h))
      (new_sinks init
         (ReadLoggingConfig (Sample.env Sample.never Sample.never)
            ["console"; "file"] "/var/log/grafana" Sample.cfg init).2)
    = ["console"; "file"].
Proof.
  split.
  - apply (proj1 (proj2 (proj2 (proj2
             (ReadLoggingConfig_no_rollback (Sample.env Sample.never Sample.never)
                ["console"; "nosuch"; "file"] "/var/log/grafana"
                Sample.cfg init))))).
    + reflexivity.
    + vm_compute. discriminate.
  - apply (proj1 (proj2 (proj2
             (ReadLoggingConfig_no_rollback (Sample.env Sample.never Sample.never)
                ["console"; "file"] "/var/log/grafana" Sample.cfg init)))).
    vm_compute. reflexivity.
Defined.

(** [X8]  After a load, [loggersToClose] holds the file and syslog
    handlers that load has built, in order, and no console handler and
    no older handler; [loggersToReload] has gained the file handlers.
    The next [Close] therefore calls exactly these file and syslog
    handlers. *)
Theorem ReadLoggingConfig_registers
    (E : Env) (modes : list string) (logsPath : string) (cfg : ini.File)
    (st : State) :
  loggersToClose (ReadLoggingConfig E modes logsPath cfg st).2
    = filter (λ h, mode_of (backend h) ≠ "console")
             (new_sinks st (ReadLoggingConfig E modes logsPath cfg st).2) ∧
  loggersToReload (ReadLoggingConfig E modes logsPath cfg st).2
    = loggersToReload st ++
      filter (λ h, mode_of (backend h) = "file")
             (new_sinks st (ReadLoggingConfig E modes logsPath cfg st).2) ∧
  calls (Close E (ReadLoggingConfig E modes logsPath cfg st).2).2
    = calls (ReadLoggingConfig E modes logsPath cfg st).2 ++
      map CallClose
        (filter (λ h, mode_of (backend h) ≠ "console")
                (new_sinks st (ReadLoggingConfig E modes logsPath cfg st).2)).
Proof.
  destruct (ReadLoggingConfig_trace E modes logsPath cfg st)
    as (_ & _ & _ & _ & _ & H6 & H7 & _).
  rewrite Close_spec. simpl. by rewrite <- H6.
Qed.

(** [X9]  Every handler a load has built filters every name of the
    default table, and every name it filters is a name of the global
    table. *)
Theorem ReadLoggingConfig_filter_names
    (E : Env) (modes : list string) (logsPath : string) (cfg : ini.File)
    (st : State) :
  Forall (λ b, dom (default_filters E cfg) ⊆ dom (LogWithFilters.filters b) ∧
               dom (LogWithFilters.filters b) ⊆
                 dom (filters (ReadLoggingConfig E modes logsPath cfg st).2))
         (new_loggers st (ReadLoggingConfig E modes logsPath cfg st).2).
Proof.
  by destruct (ReadLoggingConfig_trace E modes logsPath cfg st)
    as (_ & _ & _ & _ & _ & _ & _ & _ & H9 & _).
Qed.

(** [X10]  The loggers of [Root] are bare handlers in every state the
    package gets to: [init] has none, and [ReadLoggingConfig] (whatever
    it returns), [Close] and [Reload] keep them so. *)
Theorem Root_stays_plain (E : Env) (st : State) :
  plain (Root st) →
  plain (Root init) ∧
  plain (Root (Close E st).2) ∧
  plain (Root (Reload E st).2) ∧
  ∀ modes logsPath cfg, plain (Root (ReadLoggingConfig E modes logsPath cfg st).2).
Proof.
  intros Hp. split; [constructor|]. split; [by rewrite Close_spec|].
  split; [unfold Reload; by destruct (Reload_range _ _ _)|].
  intros modes logsPath cfg. unfold plain.
  destruct (ReadLoggingConfig_trace E modes logsPath cfg st) as (-> & H2 & _).
  by apply Forall_app.
Qed.

Lemma Root_stays_plain_witness :
  plain (Root (ReadLoggingConfig (Sample.env Sample.never Sample.never)
                 ["console"; "syslog"] "/var/log/grafana" Sample.cfg init).2).
Proof.
  apply (Root_stays_plain (Sample.env Sample.never Sample.never) init).
  constructor.
Defined.

Section LoaderOutcome.
Variable E : Env.

(** A recognized mode with its section is built, provided the directory
    and the writer of a file mode can be made, and the syslog handler of
    a syslog mode. *)
Lemma mode_recognized_Continue logsPath cfg dl df mode st :
  recognized (Strings.TrimSpace mode) →
  is_Some (cfg !! ("log." +:+ Strings.TrimSpace mode)) →
  (Strings.TrimSpace mode = "file" →
   (∀ p, MkdirAll E p = None) ∧ (∀ h, Init E h = None)) →
  (Strings.TrimSpace mode = "syslog" → ∀ sec f, syslog_Init E sec f = None) →
  ∃ st', ReadLoggingConfig_mode E logsPath cfg dl df mode st = Continue st'.
Proof.
  intros Hrec [sec Hsec] Henv Hsys.
  unfold ReadLoggingConfig_mode, ini.GetSection. rewrite Hsec.
  destruct (getLogLevelFromConfig _ _ dl cfg) as [[ln lvl] out1].
  destruct (getFilters _) as [M out2].
  unfold ReadLoggingConfig_switch.
  destruct (decide (Strings.TrimSpace mode = "console")); [by eexists|].
  destruct (decide (Strings.TrimSpace mode = "file")) as [Hf|].
  - destruct (Henv Hf) as [Hmk Hin]. rewrite Hmk, Hin. by eexists.
  - destruct (decide (Strings.TrimSpace mode = "syslog")) as [Hs|].
    + unfold NewSyslog. rewrite (Hsys Hs). by eexists.
    + by destruct Hrec as [?|[?|?]].
Qed.

(** A turn of the loop panics only on a mode without a construction
    branch whose section exists. *)
Lemma mode_Panic logsPath cfg dl df mode st f a st' :
  ReadLoggingConfig_mode E logsPath cfg dl df mode st = Leave (Panic f a) st' →
  ¬ recognized (Strings.TrimSpace mode) ∧
  is_Some (cfg !! ("log." +:+ Strings.TrimSpace mode)) ∧
  f = "Handler is uninitialized for mode %q" ∧
  a = [Strings.TrimSpace mode].
Proof.
  unfold ReadLoggingConfig_mode, ini.GetSection. intros H.
  destruct (cfg !! _) as [sec|] eqn:Hsec; [|discriminate].
  destruct (getLogLevelFromConfig _ _ dl cfg) as [[ln lvl] out1].
  destruct (getFilters _) as [M out2].
  destruct (ReadLoggingConfig_switch _ _ _ _ _ _) as [[[v|] st1]|[r st1]] eqn:Hsw;
    try discriminate.
  - apply switch_nil in Hsw as [Hn _]. injection H as <- <- _. eauto.
  - apply switch_leaves in Hsw as ([[[e ->] _]|[(e & -> & _) _]] & _);
      discriminate.
Qed.

Lemma range_success logsPath cfg dl df modes st :
  Forall (λ mode, recognized (Strings.TrimSpace mode) ∧
                  is_Some (cfg !! ("log." +:+ Strings.TrimSpace mode))) modes →
  ("file" ∈ map Strings.TrimSpace modes →
   (∀ p, MkdirAll E p = None) ∧ (∀ h, Init E h = None)) →
  ("syslog" ∈ map Strings.TrimSpace modes →
   ∀ sec f, syslog_Init E sec f = None) →
  (ReadLoggingConfig_range E logsPath cfg dl df modes st).1 = Return None.
Proof.
  intros Hall. revert st. induction Hall as [|mode modes [Hrec Hsec] _ IH];
    intros st Henv Hsys; simpl; [done|].
  destruct (mode_recognized_Continue logsPath cfg dl df mode st Hrec Hsec)
    as [st1 ->].
  - intros Hf. apply Henv. simpl. rewrite Hf. apply list_elem_of_here.
  - intros Hs. apply Hsys. simpl. rewrite Hs. apply list_elem_of_here.
  - apply IH.
    + intros Hin. apply Henv. simpl. by apply list_elem_of_further.
    + intros Hin. apply Hsys. simpl. by apply list_elem_of_further.
Qed.

Lemma range_Panic logsPath cfg dl df modes st f a :
  (ReadLoggingConfig_range E logsPath cfg dl df modes st).1 = Panic f a →
  ∃ mode, mode ∈ modes ∧ ¬ recognized (Strings.TrimSpace mode) ∧
          is_Some (cfg !! ("log." +:+ Strings.TrimSpace mode)) ∧
          f = "Handler is uninitialized for mode %q" ∧
          a = [Strings.TrimSpace mode].
Proof.
  revert st. induction modes as [|mode modes IH]; intros st; simpl; [done|].
  destruct (ReadLoggingConfig_mode _ _ _ _ _ _ _) as [st1|r st1] eqn:Hm.
  - intros H. destruct (IH _ H) as (m & Hin & Hrest).
    exists m. split; [by apply list_elem_of_further|done].
  - simpl. intros ->. apply mode_Panic in Hm.
    exists mode. split; [apply list_elem_of_here|done].
Qed.

End LoaderOutcome.

(** [X11]  A load returns nil whenever closing the old handlers gives
    no error, every mode is console, file or syslog (spaces around the
    name aside) and has its section [log.<mode>], and, if a file mode is
    asked for, the directory and the file writer can be made, and, if a
    syslog mode is asked for, the syslog handler can be made. *)
Theorem ReadLoggingConfig_succeeds
    (E : Env) (modes : list string) (logsPath : string) (cfg : ini.File)
    (st : State) :
  (Close E st).1 = None →
  Forall (λ mode, recognized (Strings.TrimSpace mode) ∧
                  is_Some (cfg !! ("log." +:+ Strings.TrimSpace mode))) modes →
  ("file" ∈ map Strings.TrimSpace modes →
   (∀ p, MkdirAll E p = None) ∧ (∀ h, Init E h = None)) →
  ("syslog" ∈ map Strings.TrimSpace modes →
   ∀ sec f, syslog_Init E sec f = None) →
  (ReadLoggingConfig E modes logsPath cfg st).1 = Return None.
Proof.
  intros Hc Hall Henv Hsys. unfold ReadLoggingConfig.
  destruct (Close E st) as [[e|] st1]; [discriminate|].
  destruct (getLogLevelFromConfig _ _ _ _) as [[dl ?] out1].
  destruct (getFilters _) as [df out2].
  by apply range_success.
Qed.

(** Console and syslog with an open syslog handler whose [Close] works:
    the load returns nil although the file writer would fail. *)
Lemma ReadLoggingConfig_succeeds_witness :
  (ReadLoggingConfig
     {| SplitString := Sample.split_fields;
        unicode_ToLower := λ s, s; syslog_Init := λ _ _, None;
        IsTerminal := true;
        Join := λ dir name, dir +:+ "/" +:+ name; Dir := λ p, p;
        MkdirAll := λ _, Some (ExtErr "read-only file system");
        ParseBool := λ _, None; ParseInt := λ _, None;
        Init := λ _, Some (ExtErr "read-only file system");
        handler_Close := Sample.never; handler_Reload := Sample.never |}
     [" console"; "syslog "] "/var/log/grafana" Sample.cfg
     Sample.syslog_open).1 = Return None.
Proof.
  apply ReadLoggingConfig_succeeds.
  - reflexivity.
  - constructor; [split; [left; reflexivity|vm_compute; by eexists]|].
    constructor; [split; [right; right; reflexivity|vm_compute; by eexists]|].
    constructor.
  - vm_compute. intros H. apply list_elem_of_In in H. simpl in H.
    destruct H as [H|[H|[]]]; discriminate H.
  - reflexivity.
Defined.

(** [X12]  A load panics only with the message of the uninitialized
    handler, and only when one of the modes is none of console, file and
    syslog and the configuration has a section for it. *)
Theorem ReadLoggingConfig_panics_only_on_unknown_mode
    (E : Env) (modes : list string) (logsPath : string) (cfg : ini.File)
    (st : State) (f : string) (a : list string) :
  (ReadLoggingConfig E modes logsPath cfg st).1 = Panic f a →
  ∃ mode, mode ∈ modes ∧ ¬ recognized (Strings.TrimSpace mode) ∧
          is_Some (cfg !! ("log." +:+ Strings.TrimSpace mode)) ∧
          f = "Handler is uninitialized for mode %q" ∧
          a = [Strings.TrimSpace mode].
Proof.
  unfold ReadLoggingConfig.
  destruct (Close E st) as [[e|] st1]; [discriminate|].
  destruct (getLogLevelFromConfig _ _ _ _) as [[dl ?] out1].
  destruct (getFilters _) as [df out2].
  apply range_Panic.
Qed.

Lemma ReadLoggingConfig_panics_only_on_unknown_mode_witness :
  ∃ mode, mode ∈ ["console"; " kafka"] ∧ ¬ recognized (Strings.TrimSpace mode) ∧
          is_Some (Sample.cfg !! ("log." +:+ Strings.TrimSpace mode)) ∧
          "Handler is uninitialized for mode %q"
            = "Handler is uninitialized for mode %q" ∧
          ["kafka"] = [Strings.TrimSpace mode].
Proof.
  apply (ReadLoggingConfig_panics_only_on_unknown_mode
           (Sample.env Sample.never Sample.never) ["console"; " kafka"]
           "/var/log/grafana" Sample.cfg init).
  vm_compute. reflexivity.
Defined.

(** [X13]  The loop over the modes composes: going through
    [modes1 ++ modes2] is going through [modes1] and, when that has
    built every one of them, going through [modes2] from the state
    reached; when the first part returns an error, panics or ends the
    process, that is the result and the second part is not looked
    at. *)
Theorem ReadLoggingConfig_range_app
    (E : Env) (logsPath : string) (cfg : ini.File) (dl : string)
    (df : gmap string level.Option) (modes1 modes2 : list string) (st : State) :
  ReadLoggingConfig_range E logsPath cfg dl df (modes1 ++ modes2) st =
  match ReadLoggingConfig_range E logsPath cfg dl df modes1 st with
  | (Return None, st1) => ReadLoggingConfig_range E logsPath cfg dl df modes2 st1
  | other => other
  end.
Proof.
  revert st. induction modes1 as [|mode modes1 IH]; intros st; simpl; [done|].
  destruct (ReadLoggingConfig_mode _ _ _ _ _ _ _) as [st1|r st1] eqn:Hm; [apply IH|].
  apply mode_Leave in Hm as [Hne _]. by destruct r as [[e|]|f a|e].
Qed.

(* ================================================================== *)
(** ** Further properties: levels, names and tables *)

Lemma before_dots_none (pre s : string) :
  Strings.contains s "." = false → Strings.before_dots pre s = [].
Proof.
  revert pre. induction s as [|c s IH]; intros pre; simpl; [done|].
  destruct (Ascii.eqb c "."); [done|]. simpl. apply IH.
Qed.

(** A section [log.<m>] is a child of the section [log] alone. *)
Lemma parents_of_mode (m : string) :
  Strings.contains m "." = false → Strings.parents ("log." +:+ m) = ["log"].
Proof.
  intros Hm. unfold Strings.parents. simpl.
  by rewrite (before_dots_none _ _ Hm).
Qed.

(** [X14]  A section [log.<m>] that has no key [level] of its own gets
    the level of the section [log]: the same name in lower case, the
    same option, and the same diagnostic once more when that name is
    unknown.  When [log] sets no level either, the level is info and
    nothing is written. *)
Theorem level_falls_back_to_default (E : Env) (cfg : ini.File) (m : string) :
  Strings.contains m "." = false →
  ini.own_key cfg "level" ("log." +:+ m) = None →
  getLogLevelFromConfig E ("log." +:+ m)
      (getLogLevelFromConfig E "log" "info" cfg).1.1 cfg
    = getLogLevelFromConfig E "log" "info" cfg ∧
  (ini.KeyString (ini.SectionOf cfg "log") "level" = "" →
   getLogLevelFromConfig E ("log." +:+ m)
       (getLogLevelFromConfig E "log" "info" cfg).1.1 cfg
     = ("info", level.AllowInfo, [])).
Proof.
  intros Hm Hown.
  assert (ini.KeyString (ini.SectionOf cfg ("log." +:+ m)) "level"
          = ini.KeyString (ini.SectionOf cfg "log") "level") as Hkey.
  { unfold ini.KeyString, ini.GetKey, ini.SectionOf.
    cbn [ini.sec_file ini.sec_name].
    rewrite (parents_of_mode m Hm).
    change (omap (ini.own_key cfg "level") (("log." +:+ m) :: ["log"]))
      with (match ini.own_key cfg "level" ("log." +:+ m) with
            | Some v => v :: omap (ini.own_key cfg "level") ["log"]
            | None => omap (ini.own_key cfg "level") ["log"]
            end).
    by rewrite Hown. }
  destruct (ini.KeyString (ini.SectionOf cfg "log") "level") as [|c v] eqn:Hv.
  - assert (getLogLevelFromConfig E "log" "info" cfg
            = ("info", level.AllowInfo, [])) as Hlog.
    { unfold getLogLevelFromConfig, ini.MustString. rewrite Hv. reflexivity. }
    rewrite Hlog.
    assert (getLogLevelFromConfig E ("log." +:+ m) "info" cfg
            = ("info", level.AllowInfo, [])) as Heq.
    { unfold getLogLevelFromConfig, ini.MustString. rewrite Hkey. reflexivity. }
    split; [exact Heq|]. intros _. exact Heq.
  - split; [|discriminate].
    unfold getLogLevelFromConfig, ini.MustString. rewrite Hkey, Hv.
    by destruct (getLogLevelFromString _).
Qed.

(** The section [log.console] is not in the file; the section [log]
    writes its level [WaRn]. *)
Lemma level_falls_back_to_default_witness :
  getLogLevelFromConfig (Sample.env Sample.never Sample.never) "log.console"
    (getLogLevelFromConfig (Sample.env Sample.never Sample.never)
       "log" "info" Sample.cfg_mixed_case).1.1
    Sample.cfg_mixed_case
  = ("warn", level.AllowWarn, []).
Proof.
  transitivity (getLogLevelFromConfig (Sample.env Sample.never Sample.never)
                  "log" "info" Sample.cfg_mixed_case); [|reflexivity].
  apply (level_falls_back_to_default (Sample.env Sample.never Sample.never)
           Sample.cfg_mixed_case "console").
  - reflexivity.
  - reflexivity.
Defined.

Lemma trim_left_cons (c : ascii) (r1 : string) :
  Strings.trim_left (String c r1) =
  if Strings.space1 c then Strings.trim_left r1 else
  match r1 with
  | EmptyString => String c r1
  | String d r2 =>
      if Strings.space2 c d then Strings.trim_left r2 else
      match r2 with
      | EmptyString => String c r1
      | String e r3 =>
          if Strings.space3 c d e then Strings.trim_left r3 else String c r1
      end
  end.
Proof. by destruct r1 as [|d [|e r3]]. Qed.

Lemma trim_left_no_space (n : nat) (s : string) :
  (String.length s ≤ n)%nat →
  Strings.has_space_prefix (Strings.trim_left s) = false.
Proof.
  revert s. induction n as [|n IH]; intros s Hlen.
  - destruct s; [reflexivity|simpl in Hlen; lia].
  - destruct s as [|c r1]; [reflexivity|]. rewrite trim_left_cons.
    destruct (Strings.space1 c) eqn:H1; [apply IH; simpl in *; lia|].
    destruct r1 as [|d r2].
    { cbn [Strings.has_space_prefix]. by rewrite H1. }
    destruct (Strings.space2 c d) eqn:H2; [apply IH; simpl in *; lia|].
    destruct r2 as [|e r3].
    { cbn [Strings.has_space_prefix]. by rewrite H1, H2. }
    destruct (Strings.space3 c d e) eqn:H3; [apply IH; simpl in *; lia|].
    cbn [Strings.has_space_prefix]. by rewrite H1, H2, H3.
Qed.

Lemma trim_left_fixed (s : string) :
  Strings.has_space_prefix s = false → Strings.trim_left s = s.
Proof.
  destruct s as [|c r1]; [reflexivity|]. rewrite trim_left_cons.
  cbn [Strings.has_space_prefix]. intros H.
  apply orb_false_iff in H as [-> H].
  destruct r1 as [|d r2]; [reflexivity|].
  apply orb_false_iff in H as [-> H].
  destruct r2 as [|e r3]; [reflexivity|]. by rewrite H.
Qed.

Lemma append_cons (c : ascii) (r x : string) :
  String c r +:+ x = String c (r +:+ x).
Proof. reflexivity. Qed.

Lemma has_space_prefix_app (p x : string) :
  Strings.has_space_prefix p = true → Strings.has_space_prefix (p +:+ x) = true.
Proof.
  destruct p as [|c r1]; [discriminate|].
  rewrite append_cons. cbn [Strings.has_space_prefix]. intros H.
  apply orb_true_iff in H as [->|H]; [reflexivity|].
  destruct r1 as [|d r2]; [discriminate|]. rewrite append_cons.
  apply orb_true_iff in H as [->|H]; [by rewrite orb_true_r|].
  destruct r2 as [|e r3]; [discriminate|]. rewrite append_cons.
  by rewrite H, !orb_true_r.
Qed.

Lemma trim_right_cons (c : ascii) (r : string) :
  Strings.trim_right (String c r) =
  if Strings.is_space_rune (String c (Strings.trim_right r)) then EmptyString
  else String c (Strings.trim_right r).
Proof. reflexivity. Qed.

Lemma trim_right_prefix (s : string) :
  ∃ x, s = Strings.trim_right s +:+ x.
Proof.
  induction s as [|c r [x IH]]; [by exists EmptyString|].
  rewrite trim_right_cons.
  destruct (Strings.is_space_rune _); [by eexists|].
  exists x. rewrite append_cons. by rewrite <- IH.
Qed.

Lemma trim_right_idem (s : string) :
  Strings.trim_right (Strings.trim_right s) = Strings.trim_right s.
Proof.
  induction s as [|c r IH]; [reflexivity|].
  rewrite trim_right_cons.
  destruct (Strings.is_space_rune _) eqn:Hs; [reflexivity|].
  by rewrite trim_right_cons, IH, Hs.
Qed.

Lemma TrimSpace_idem (s : string) :
  Strings.TrimSpace (Strings.TrimSpace s) = Strings.TrimSpace s.
Proof.
  unfold Strings.TrimSpace.
  pose proof (trim_left_no_space (String.length s) s (le_n _)) as Hl.
  rewrite (trim_left_fixed (Strings.trim_right (Strings.trim_left s))).
  - apply trim_right_idem.
  - destruct (trim_right_prefix (Strings.trim_left s)) as [x Hx].
    destruct (Strings.has_space_prefix (Strings.trim_right _)) eqn:Hp;
      [|reflexivity].
    apply (has_space_prefix_app _ x) in Hp. rewrite <- Hx in Hp. congruence.
Qed.

(** [X15]  Spaces around a mode name do not count: a load of the
    trimmed names is the same load, with the same result and the same
    state.  The white space is that of Unicode. *)
Theorem ReadLoggingConfig_trims_modes
    (E : Env) (modes : list string) (logsPath : string) (cfg : ini.File)
    (st : State) :
  ReadLoggingConfig E (map Strings.TrimSpace modes) logsPath cfg st
    = ReadLoggingConfig E modes logsPath cfg st.
Proof.
  unfold ReadLoggingConfig.
  destruct (Close E st) as [[e|] st1]; [done|].
  destruct (getLogLevelFromConfig _ _ _ _) as [[dl ?] out1].
  destruct (getFilters _) as [df out2].
  generalize (write_llog (out1 ++ out2) st1). clear.
  induction modes as [|mode modes IH]; intros st; simpl; [done|].
  assert (ReadLoggingConfig_mode E logsPath cfg dl df (Strings.TrimSpace mode) st
          = ReadLoggingConfig_mode E logsPath cfg dl df mode st) as ->.
  { unfold ReadLoggingConfig_mode. by rewrite TrimSpace_idem. }
  destruct (ReadLoggingConfig_mode _ _ _ _ _ _ _); [apply IH|done].
Qed.

Lemma omap_entry_filter (l : list string) :
  omap entry (filter (λ s, Strings.contains s ":" = true) l) = omap entry l.
Proof.
  induction l as [|s l IH]; [done|].
  destruct (Strings.contains s ":") eqn:Hc.
  - rewrite filter_cons_True by done.
    change (match entry s with
            | Some y =>
                y :: omap entry (filter (λ s, Strings.contains s ":" = true) l)
            | None => omap entry (filter (λ s, Strings.contains s ":" = true) l)
            end
            = match entry s with
              | Some y => y :: omap entry l
              | None => omap entry l
              end).
    by rewrite IH.
  - rewrite filter_cons_False by (by rewrite Hc).
    change (omap entry (filter (λ s, Strings.contains s ":" = true) l)
            = match entry s with
              | Some y => y :: omap entry l
              | None => omap entry l
              end).
    unfold entry at 2. by rewrite Hc.
Qed.

Lemma entry_out_filter (l : list string) :
  flat_map entry_out (filter (λ s, Strings.contains s ":" = true) l)
    = flat_map entry_out l.
Proof.
  induction l as [|s l IH]; [done|].
  destruct (Strings.contains s ":") eqn:Hc.
  - rewrite filter_cons_True by done. simpl. by rewrite IH.
  - rewrite filter_cons_False by (by rewrite Hc). simpl.
    unfold entry_out at 2. by rewrite Hc.
Qed.

(** [X16]  Parsing two lists of filter strings one after the other is
    parsing them apart and laying the second table over the first: a
    name of the second list wins, and the diagnostics follow each other.
    Strings without a [':'] can be left out beforehand. *)
Theorem getFilters_app (l1 l2 : list string) :
  (getFilters (l1 ++ l2)).1 = (getFilters l2).1 ∪ (getFilters l1).1 ∧
  (getFilters (l1 ++ l2)).2 = (getFilters l1).2 ++ (getFilters l2).2 ∧
  getFilters (filter (λ s, Strings.contains s ":" = true) l1) = getFilters l1.
Proof.
  destruct (getFilters_entries (l1 ++ l2)) as [-> ->].
  destruct (getFilters_entries l1) as [H1 H1'].
  destruct (getFilters_entries l2) as [-> ->].
  rewrite H1, H1'.
  rewrite omap_app, reverse_app, list_to_map_app, flat_map_app.
  split; [done|]. split; [done|].
  destruct (getFilters_entries (filter (λ s, Strings.contains s ":" = true) l1))
    as [H2 H2'].
  apply injective_projections.
  - by rewrite H2, H1, omap_entry_filter.
  - by rewrite H2', H1', entry_out_filter.
Qed.

Section HandlerTables.
Variable E : Env.

(** Each handler the loop has built carries the level and the filter
    table its own section gives it. *)
Lemma range_tables logsPath cfg dl df modes st :
  ∃ news,
    loggers (Root (ReadLoggingConfig_range E logsPath cfg dl df modes st).2)
      = loggers (Root st) ++ news ∧
    Forall
      (λ b,
         is_Some (cfg !! ("log." +:+ mode_of (backend (sink_of (LogWithFilters.val b))))) ∧
         LogWithFilters.maxLevel b =
           (getLogLevelFromConfig E
              ("log." +:+ mode_of (backend (sink_of (LogWithFilters.val b))))
              dl cfg).1.2 ∧
         LogWithFilters.filters b =
           (getFilters
              (SplitString E
                 (ini.KeyString
                    (ini.SectionOf cfg
                       ("log." +:+ mode_of (backend (sink_of (LogWithFilters.val b)))))
                    "filters"))).1 ∪ df)
      news.
Proof.
  revert st. induction modes as [|mode modes IH]; intros st; simpl.
  - exists []. by rewrite app_nil_r.
  - destruct (ReadLoggingConfig_mode _ _ _ _ _ _ _) as [st1|r st1] eqn:Hm.
    + apply mode_Continue in Hm as (sec & h & Hsec & _ & Hmode & HR & _).
      destruct (IH st1) as (news & HR' & Hall).
      eexists (_ :: news). rewrite HR', HR, <- app_assoc. split; [done|].
      constructor; [|done]. simpl. rewrite Hmode, Hsec. done.
    + apply mode_Leave in Hm as (_ & HR & _).
      exists []. simpl. by rewrite app_nil_r, HR.
Qed.

End HandlerTables.

(** [X17]  Every handler a load has built filters at the level its own
    section [log.<mode>] gives, the level of [log] standing in when the
    section gives none, and with the filter table its own section gives
    laid over the default table of [log]. *)
Theorem ReadLoggingConfig_handler_tables
    (E : Env) (modes : list string) (logsPath : string) (cfg : ini.File)
    (st : State) :
  Forall
    (λ b,
       is_Some (cfg !! ("log." +:+ mode_of (backend (sink_of (LogWithFilters.val b))))) ∧
       LogWithFilters.maxLevel b =
         (getLogLevelFromConfig E
            ("log." +:+ mode_of (backend (sink_of (LogWithFilters.val b))))
            (getLogLevelFromConfig E "log" "info" cfg).1.1 cfg).1.2 ∧
       LogWithFilters.filters b =
         (getFilters
            (SplitString E
               (ini.KeyString
                  (ini.SectionOf cfg
                     ("log." +:+ mode_of (backend (sink_of (LogWithFilters.val b)))))
                  "filters"))).1 ∪ default_filters E cfg)
    (new_loggers st (ReadLoggingConfig E modes logsPath cfg st).2).
Proof.
  unfold ReadLoggingConfig, new_loggers, default_filters.
  rewrite Close_spec.
  destruct (head (omap (handler_Close E) (loggersToClose st))) as [e|]; simpl.
  - rewrite drop_all. constructor.
  - destruct (getLogLevelFromConfig E "log" "info" cfg) as [[dl ?] out1].
    destruct (getFilters _) as [df out2]. simpl.
    match goal with
    | |- context [ReadLoggingConfig_range E logsPath cfg dl df modes ?s] =>
        destruct (range_tables E logsPath cfg dl df modes s) as (news & HR & Hall)
    end.
    simpl in HR. by rewrite HR, drop_app_length.
Qed.

(** [X18]  A file section that gives none of the keys, neither itself
    nor through a section it is a child of, where an empty text is
    neither a boolean nor a number, gives the file writer [grafana.log]
    in the logs directory, rotation on, 1000000 lines, 2^28 bytes, daily
    rotation on and 7 days; the writer is registered for close and for
    reload. *)
Theorem file_handler_defaults
    (E : Env) (logsPath : string) (sec : ini.Sec)
    (format : Formatedlogger) (st st' : State) (v : Logger) :
  ParseBool E "" = None → ParseInt E "" = None →
  Forall (λ k, ini.KeyString sec k = "")
         ["file_name"; "log_rotate"; "max_lines"; "max_size_shift";
          "daily_rotate"; "max_days"] →
  ReadLoggingConfig_switch E logsPath sec format "file" st = inl (Some v, st') →
  v = Handler
        {| sid := allocated st;
           backend :=
             File {| Filename := Join E logsPath "grafana.log";
                     Format := format; Rotate := true; Maxlines := 1000000;
                     Maxsize := 268435456; Daily := true; Maxdays := 7 |} |} ∧
  loggersToClose st' = loggersToClose st ++ [sink_of v] ∧
  loggersToReload st' = loggersToReload st ++ [sink_of v].
Proof.
  intros Hb Hi Hkeys H.
  repeat (apply Forall_cons in Hkeys as [? Hkeys]).
  unfold ReadLoggingConfig_switch in H.
  destruct (decide ("file" = "console")); [done|].
  destruct (decide ("file" = "file")); [|done].
  unfold MustBool, MustInt, ini.MustString in H.
  repeat match goal with
         | Hk : ini.KeyString sec _ = "" |- _ => rewrite Hk in H; clear Hk
         end.
  rewrite Hb, Hi in H. simpl in H.
  destruct (MkdirAll E _); [done|]. destruct (Init E _); [done|].
  injection H as <- <-. done.
Qed.

Lemma file_handler_defaults_witness :
  loggersToReload
    (ReadLoggingConfig (Sample.env Sample.never Sample.never) ["file"]
       "/var/log/grafana" {[ "log.file" := ∅ ]} init).2
  = [Sample.file0].
Proof.
  destruct (file_handler_defaults (Sample.env Sample.never Sample.never)
              "/var/log/grafana"
              (ini.SectionOf {[ "log.file" := ∅ ]} "log.file") Logfmt init
              {| llog := []; loggersToClose := [Sample.file0];
                 loggersToReload := [Sample.file0]; filters := ∅;
                 Root := {| loggers := [] |};
                 calls := [CallInit Sample.file0]; allocated := 1 |}
              (Handler Sample.file0)) as (_ & _ & H).
  - reflexivity.
  - reflexivity.
  - repeat constructor.
  - reflexivity.
  - vm_compute. reflexivity.
Defined.

(** A key the section [log.file] does not set is read from the section
    [log]: the writer takes its number of lines from there. *)
Example file_handler_reads_parent_section :
  map (λ h, match backend h with File w => Maxlines w | _ => 0%Z end)
      (loggersToReload
         (ReadLoggingConfig
            {| SplitString := Sample.split_fields;
               unicode_ToLower := λ s, s; syslog_Init := λ _ _, None;
               IsTerminal := false;
               Join := λ dir name, dir +:+ "/" +:+ name;
               Dir := λ _, "/var/log/grafana";
               MkdirAll := λ _, None; ParseBool := λ _, None;
               ParseInt := λ s, if decide (s = "5") then Some 5%Z else None;
               Init := λ _, None;
               handler_Close := Sample.never; handler_Reload := Sample.never |}
            ["file"] "/var/log/grafana"
            (list_to_map [("log", {[ "max_lines" := "5" ]}); ("log.file", ∅)])
            init).2)
  = [5%Z].
Proof. vm_compute. reflexivity. Qed.

(** [X19]  The size limit of the file writer is 2 to the power of
    [max_size_shift] only for a shift from 0 to 62: a shift of 63 gives
    a negative limit, and a shift of 64 or more, or a negative one,
    gives the limit 0. *)
Theorem file_handler_Maxsize
    (E : Env) (logsPath : string) (sec : ini.Sec)
    (format : Formatedlogger) (st st' : State) (v : Logger) :
  ReadLoggingConfig_switch E logsPath sec format "file" st = inl (Some v, st') →
  ∃ w, backend (sink_of v) = File w ∧
       Maxsize w = shl1 (MustInt E sec "max_size_shift" 28) ∧
       (∀ n, MustInt E sec "max_size_shift" 28 = n →
             ((0 ≤ n ≤ 62)%Z → Maxsize w = (2 ^ n)%Z) ∧
             (n = 63%Z → Maxsize w = (- 2 ^ 63)%Z) ∧
             ((64 ≤ n < 2 ^ 63)%Z ∨ (- 2 ^ 63 ≤ n < 0)%Z → Maxsize w = 0%Z)).
Proof.
  intros H. unfold ReadLoggingConfig_switch in H.
  destruct (decide ("file" = "console")) as [Hc|_]; [done|].
  destruct (decide ("file" = "file")) as [_|Hf]; [|done].
  destruct (MkdirAll E _); [done|]. destruct (Init E _); [done|].
  injection H as <- _. eexists. split; [reflexivity|]. simpl.
  split; [done|]. intros n ->. unfold shl1.
  split; [|split].
  - intros Hn. rewrite Z.mod_small by lia.
    destruct (Z.ltb_spec n 63); [done|lia].
  - intros ->. reflexivity.
  - intros [Hn|Hn].
    + rewrite Z.mod_small by lia.
      destruct (Z.ltb_spec n 63); [lia|].
      destruct (Z.eqb_spec n 63); [lia|done].
    + replace (n mod 2 ^ 64)%Z with (n + 2 ^ 64)%Z.
      * destruct (Z.ltb_spec (n + 2 ^ 64) 63); [lia|].
        destruct (Z.eqb_spec (n + 2 ^ 64) 63); [lia|done].
      * apply Z.mod_unique with (-1)%Z; lia.
Qed.

Lemma file_handler_Maxsize_witness :
  ∃ w, backend (sink_of (Handler Sample.file0)) = File w ∧
       Maxsize w = shl1 (MustInt (Sample.env Sample.never Sample.never)
                           (ini.SectionOf Sample.cfg "log.file")
                           "max_size_shift" 28).
Proof.
  destruct (file_handler_Maxsize (Sample.env Sample.never Sample.never)
              "/var/log/grafana" (ini.SectionOf Sample.cfg "log.file")
              Logfmt init
              {| llog := []; loggersToClose := [Sample.file0];
                 loggersToReload := [Sample.file0]; filters := ∅;
                 Root := {| loggers := [] |};
                 calls := [CallInit Sample.file0]; allocated := 1 |}
              (Handler Sample.file0)) as (w & Hw & Hs & _).
  - reflexivity.
  - exists w. by split.
Defined.

(** [X20]  [getLogFormat] gives the coloured terminal logger only for
    the format [console] on a terminal and the JSON logger only for the
    format [json], spelled so; every other format, the empty one and a
    misspelled one among them, falls back to plain logfmt. *)
Theorem getLogFormat_fallback (isTerminal : bool) (format : string) :
  (getLogFormat isTerminal format = TermLogfmt ↔
   format = "console" ∧ isTerminal = true) ∧
  (getLogFormat isTerminal format = JSONLogger ↔ format = "json") ∧
  (format ≠ "json" → ¬ (format = "console" ∧ isTerminal = true) →
   getLogFormat isTerminal format = Logfmt).
Proof.
  unfold getLogFormat.
  repeat case_decide; subst; destruct isTerminal;
    repeat split; intros; try done; try tauto;
    repeat match goal with H : _ ∧ _ |- _ => destruct H end; done.
Qed.

Lemma getLogFormat_fallback_witness :
  getLogFormat true "JSON" = Logfmt ∧ getLogFormat false "console" = Logfmt.
Proof.
  split.
  - apply (proj2 (proj2 (getLogFormat_fallback true "JSON"))).
    + discriminate.
    + intros [H _]. discriminate H.
  - apply (proj2 (proj2 (getLogFormat_fallback false "console"))).
    + discriminate.
    + intros [_ H]. discriminate H.
Defined.

(** [X21]  Only file handlers are ever reloaded and no console handler
    is ever closed: if [loggersToReload] holds file handlers only, so it
    does after a load, whatever the load returns, and [loggersToClose]
    then holds file and syslog handlers only. *)
Theorem only_file_handlers_reload
    (E : Env) (modes : list string) (logsPath : string) (cfg : ini.File)
    (st : State) :
  Forall (λ h, mode_of (backend h) = "file") (loggersToReload st) →
  Forall (λ h, mode_of (backend h) = "file")
         (loggersToReload (ReadLoggingConfig E modes logsPath cfg st).2) ∧
  Forall (λ h, mode_of (backend h) = "file" ∨ mode_of (backend h) = "syslog")
         (loggersToClose (ReadLoggingConfig E modes logsPath cfg st).2).
Proof.
  intros Hold.
  destruct (ReadLoggingConfig_trace E modes logsPath cfg st)
    as (_ & _ & _ & _ & _ & -> & -> & _).
  split.
  - apply Forall_app. split; [done|].
    apply Forall_forall. intros h Hh. by apply list_elem_of_filter in Hh as [? _].
  - apply Forall_forall. intros h Hh. apply list_elem_of_filter in Hh as [Hn _].
    destruct (backend h); simpl in *; auto. done.
Qed.

Lemma only_file_handlers_reload_witness :
  Forall (λ h, mode_of (backend h) = "file")
         (loggersToReload
            (ReadLoggingConfig (Sample.env Sample.never Sample.never)
               ["syslog"; "file"; "console"] "/var/log/grafana"
               Sample.cfg Sample.two_files).2).
Proof.
  apply (only_file_handlers_reload (Sample.env Sample.never Sample.never)
           ["syslog"; "file"; "console"] "/var/log/grafana"
           Sample.cfg Sample.two_files).
  vm_compute. repeat constructor.
Defined.
